(** * TrustBridge: the tbenc/v1 encoder, manifest handling, key validation
      and the artifact server, embedded from the Python sources.

    Source files covered:
    - [src/cli/trustbridge_cli/crypto_tbenc.py]   (module [Tbenc])
    - [src/cli/trustbridge_cli/common/validation.py] (module [Validation])
    - [src/cli/trustbridge_cli/commands/edc.py]   (module [Edc])
    - [e2e/blob-server/server.py]                 (module [BlobServer])

    Python [int] is [Z]; [bytes] is [list byte]; [str] is [string], one
    [ascii] per code point (code points up to 255).  Exceptions are the
    [Raise] arm of [result]. *)

From Stdlib Require Import ZArith Lia List.
From Stdlib.Strings Require Import Byte Ascii String.
From stdpp Require Import base option list strings pretty gmap.

Local Open Scope Z_scope.

(** ** Bytes and exceptions *)

Abbreviation bytes := (list byte).

#[global] Instance byte_eq_dec : EqDecision byte.
Proof. intros a b. unfold Decision. decide equality. Defined.

Inductive exn : Type :=
| ValueError (msg : string)
| StructError
| FileNotFoundError (path : string)
| ValidationError (msg : string)
| OutOfFuel.

Inductive result (A : Type) : Type :=
| Ok (a : A)
| Raise (e : exn).
Arguments Ok {A} a.
Arguments Raise {A} e.

Definition is_ok {A} (r : result A) : bool :=
  match r with Ok _ => true | Raise _ => false end.

(** ** [struct.pack] for the big-endian unsigned formats the code uses *)

Module Struct.

Inductive fmt : Type := fmt_B | fmt_H | fmt_I | fmt_Q.

Definition size (f : fmt) : nat :=
  match f with fmt_B => 1 | fmt_H => 2 | fmt_I => 4 | fmt_Q => 8 end%nat.

Definition byte_of_Z (z : Z) : byte :=
  default x00 (Byte.of_N (Z.to_N (Z.land z 255))).

Definition Z_of_byte (b : byte) : Z := Z.of_N (Byte.to_N b).

(** The [w] low-order bytes of [x], most significant first. *)
Fixpoint be_bytes (w : nat) (x : Z) : bytes :=
  match w with
  | O => []
  | S w' => be_bytes w' (Z.shiftr x 8) ++ [byte_of_Z x]
  end.

(** Big-endian value of a byte string. *)
Definition be_value (bs : bytes) : Z :=
  fold_left (fun acc b => Z.lor (Z.shiftl acc 8) (Z_of_byte b)) bs 0.

Definition in_range (f : fmt) (x : Z) : bool :=
  (0 <=? x) && (x <? 2 ^ (8 * Z.of_nat (size f))).

(** [struct.pack(">X", x)]: [struct.error] when [x] does not fit. *)
Definition pack (f : fmt) (x : Z) : result bytes :=
  if in_range f x then Ok (be_bytes (size f) x) else Raise StructError.

(** [struct.pack_into(">X", buf, offset, x)] on a [bytearray]: the packed
    bytes overwrite [size f] bytes at [offset]; [struct.error] when the
    value does not fit or the buffer is too short. *)
Definition pack_into (f : fmt) (buf : bytes) (offset : nat) (x : Z)
  : result bytes :=
  match pack f x with
  | Raise e => Raise e
  | Ok packed =>
      if (offset + size f <=? length buf)%nat
      then Ok (take offset buf ++ packed ++ drop (offset + size f) buf)
      else Raise StructError
  end.

End Struct.

(** [buf[i:j] = v] on a [bytearray] (for [i <= j]): the slice is replaced
    by [v], whatever the length of [v]. *)
Definition slice_assign (buf : bytes) (i j : nat) (v : bytes) : bytes :=
  take i buf ++ v ++ drop j buf.

(** [buf[i:j]] *)
Definition slice (buf : bytes) (i j : nat) : bytes :=
  take (j - i) (drop i buf).

Definition bytes_of_string (s : string) : bytes :=
  map byte_of_ascii (list_ascii_of_string s).

(** [bytes.hex()] / [hexdigest()]: two lowercase hex digits per byte. *)
Definition hex_digit (n : Z) : ascii :=
  nth (Z.to_nat n) (list_ascii_of_string "0123456789abcdef") "0"%char.

Definition hexlify (bs : bytes) : string :=
  string_of_list_ascii
    (flat_map (fun b => let v := Struct.Z_of_byte b in
                        [hex_digit (Z.shiftr v 4); hex_digit (Z.land v 15)]) bs).

(** ** JSON values, as [json.load] returns them and [json.dump] takes them *)

#[local] Set Warnings "-register-all".

Inductive json : Type :=
| JNull
| JBool (b : bool)
| JInt (n : Z)
| JStr (s : string)
| JArr (items : list json)
| JObj (fields : list (string * json)).

(** ** External libraries *)

(** [cryptography]'s AES-GCM, for 32-byte keys and 12-byte nonces:
    [encrypt] returns the ciphertext followed by a 16-byte tag, and
    [decrypt] with the same key, nonce and associated data gives the
    plaintext back. *)
Class AEAD : Type := {
  aesgcm_encrypt : bytes -> bytes -> bytes -> bytes -> bytes;
  aesgcm_decrypt : bytes -> bytes -> bytes -> bytes -> option bytes;
  aesgcm_encrypt_length : forall key nonce data aad,
    length key = 32%nat -> length nonce = 12%nat ->
    length (aesgcm_encrypt key nonce data aad) = (length data + 16)%nat;
  aesgcm_decrypt_encrypt : forall key nonce data aad,
    length key = 32%nat -> length nonce = 12%nat ->
    aesgcm_decrypt key nonce (aesgcm_encrypt key nonce data aad) aad
    = Some data
}.

(** [hashlib.sha256]: a 32-byte digest of the bytes fed to it. *)
Class SHA256 : Type := {
  sha256 : bytes -> bytes;
  sha256_length : forall m, length (sha256 m) = 32%nat
}.

(** ** The world the program runs in *)

Inductive io_event : Type :=
| EvMkdir (path : string)
| EvOpenRead (path : string)
| EvOpenWrite (path : string)
| EvWrite (path : string) (data : bytes)
| EvRename (src dst : string)
| EvRemove (path : string)
| EvEncrypt (nonce aad : bytes).

(** Regular files by path, the operations performed so far (oldest
    first) and the operating system's random source.  Directories are
    not modelled: a file opened for writing finds its parent directory. *)
Record World : Type := mkWorld {
  fs : gmap string bytes;
  log : list io_event;
  entropy : nat -> byte;
  entropy_pos : nat
}.

(** A computation returns or raises, and leaves a world behind either
    way: an exception does not undo what was written. *)
Definition M (A : Type) : Type := World -> result A * World.

Definition ret {A} (a : A) : M A := fun w => (Ok a, w).

Definition raise {A} (e : exn) : M A := fun w => (Raise e, w).

Definition bind {A B} (m : M A) (k : A -> M B) : M B :=
  fun w => match m w with
           | (Ok a, w') => k a w'
           | (Raise e, w') => (Raise e, w')
           end.

Definition lift {A} (r : result A) : M A := fun w => (r, w).

Declare Scope io_scope.
Delimit Scope io_scope with io.
Notation "x <- c1 ;; c2" := (bind c1 (fun x => c2))
  (at level 20, c1 at level 99, c2 at level 200, only parsing) : io_scope.
Notation "c1 ;;; c2" := (bind c1 (fun _ => c2))
  (at level 100, c2 at level 200, only parsing, right associativity) : io_scope.

Definition emit (e : io_event) : M unit :=
  fun w => (Ok tt, mkWorld (fs w) (log w ++ [e]) (entropy w) (entropy_pos w)).

(** [os.urandom(n)] *)
Definition os_urandom (n : nat) : M bytes :=
  fun w => (Ok (map (entropy w) (seq (entropy_pos w) n)),
            mkWorld (fs w) (log w) (entropy w) (entropy_pos w + n)).

(** [open(path, "rb")]: the bytes the handle will read. *)
Definition open_rb (path : string) : M bytes :=
  fun w => match fs w !! path with
           | Some content =>
               (Ok content,
                mkWorld (fs w) (log w ++ [EvOpenRead path])
                        (entropy w) (entropy_pos w))
           | None => (Raise (FileNotFoundError path), w)
           end.

(** [open(path, "wb")] and [open(path, "w")]: the file exists and is
    empty from this point on. *)
Definition open_w (path : string) : M unit :=
  fun w => (Ok tt, mkWorld (<[path := []]> (fs w))
                           (log w ++ [EvOpenWrite path])
                           (entropy w) (entropy_pos w)).

(** [f.write(data)] on a handle opened on [path]. *)
Definition file_write (path : string) (data : bytes) : M unit :=
  fun w => (Ok tt, mkWorld (<[path := default [] (fs w !! path) ++ data]> (fs w))
                           (log w ++ [EvWrite path data])
                           (entropy w) (entropy_pos w)).

(** [f.read(n)] on the bytes a handle has left: the chunk and the rest. *)
Definition file_read (n : Z) (rest : bytes) : bytes * bytes :=
  if n <? 0 then (rest, [])
  else (take (Z.to_nat n) rest, drop (Z.to_nat n) rest).

(** ** [crypto_tbenc.py] *)

Module Tbenc.

Local Open Scope io_scope.

Definition MAGIC : bytes := bytes_of_string "TBENC001".
Definition VERSION : Z := 1.
Definition ALGO_AES_GCM_CHUNKED : Z := 1.
Definition HEADER_SIZE : nat := 32.
Definition NONCE_PREFIX_SIZE : nat := 4.
Definition NONCE_SIZE : nat := 12.
Definition TAG_SIZE : nat := 16.
Definition DEFAULT_CHUNK_SIZE : Z := 4 * 1024 * 1024.

(** [generate_key] *)
Definition generate_key : M bytes := os_urandom 32.

(** [_build_header] *)
Definition _build_header (chunk_bytes : Z) (nonce_prefix : bytes)
  : result bytes :=
  if negb (length nonce_prefix =? NONCE_PREFIX_SIZE)%nat
  then Raise (ValueError "nonce_prefix must be 4 bytes")
  else
    let header := repeat x00 HEADER_SIZE in
    let offset := 0%nat in
    let header := slice_assign header offset (offset + 8) MAGIC in
    let offset := (offset + 8)%nat in
    match Struct.pack_into Struct.fmt_H header offset VERSION with
    | Raise e => Raise e
    | Ok header =>
    let offset := (offset + 2)%nat in
    match Struct.pack_into Struct.fmt_B header offset ALGO_AES_GCM_CHUNKED with
    | Raise e => Raise e
    | Ok header =>
    let offset := (offset + 1)%nat in
    match Struct.pack_into Struct.fmt_I header offset chunk_bytes with
    | Raise e => Raise e
    | Ok header =>
    let offset := (offset + 4)%nat in
    let header :=
      slice_assign header offset (offset + NONCE_PREFIX_SIZE) nonce_prefix in
    Ok header
    end end end.

(** [_derive_nonce] *)
Definition _derive_nonce (nonce_prefix : bytes) (chunk_index : Z)
  : result bytes :=
  match Struct.pack Struct.fmt_Q chunk_index with
  | Raise e => Raise e
  | Ok counter_bytes => Ok (nonce_prefix ++ counter_bytes)
  end.

(** [_build_aad] *)
Definition _build_aad (magic : bytes) (version algo chunk_bytes : Z)
    (nonce_prefix : bytes) (chunk_index pt_len : Z) : result bytes :=
  let aad := [] in
  let aad := aad ++ magic in
  match Struct.pack Struct.fmt_H version with
  | Raise e => Raise e
  | Ok b =>
  let aad := aad ++ b in
  match Struct.pack Struct.fmt_B algo with
  | Raise e => Raise e
  | Ok b =>
  let aad := aad ++ b in
  match Struct.pack Struct.fmt_I chunk_bytes with
  | Raise e => Raise e
  | Ok b =>
  let aad := aad ++ b in
  let aad := aad ++ nonce_prefix in
  match Struct.pack Struct.fmt_Q chunk_index with
  | Raise e => Raise e
  | Ok b =>
  let aad := aad ++ b in
  match Struct.pack Struct.fmt_I pt_len with
  | Raise e => Raise e
  | Ok b =>
  let aad := aad ++ b in
  Ok aad
  end end end end end.

Section Encoder.

Context `{AEAD} `{SHA256}.

(** [json.dumps(obj, indent=2)], encoded: the text [json.dump] writes. *)
Variable json_dumps : json -> bytes.

(** A [hashlib.sha256()] object is the bytes fed to it so far. *)
Definition hasher_update (hasher data : bytes) : bytes := hasher ++ data.

Definition hexdigest (hasher : bytes) : string := hexlify (sha256 hasher).

(** [aesgcm.encrypt(nonce, data, aad)], recorded in the log. *)
Definition aesgcm_encrypt_call (key nonce data aad : bytes) : M bytes :=
  emit (EvEncrypt nonce aad) ;;;
  ret (aesgcm_encrypt key nonce data aad).

(** The variables the [while True] loop of [encrypt_file] updates. *)
Record loop_state : Type := mkLoop {
  st_fin : bytes;
  st_chunk_index : Z;
  st_plaintext_size : Z;
  st_hasher : bytes
}.

(** The [while True] loop of [encrypt_file], [fuel] iterations at most;
    [OutOfFuel] is the model's own and is never seen from
    [encrypt_file], which gives the loop one iteration per input byte
    and one more. *)
Fixpoint encrypt_loop (fuel : nat) (output_path : string) (key : bytes)
    (chunk_bytes : Z) (nonce_prefix : bytes) (st : loop_state)
  : M loop_state :=
  match fuel with
  | O => raise OutOfFuel
  | S fuel' =>
      let (plaintext_chunk, rest) := file_read chunk_bytes (st_fin st) in
      match plaintext_chunk with
      | [] => ret st
      | _ :: _ =>
          let pt_len := Z.of_nat (length plaintext_chunk) in
          let plaintext_size := st_plaintext_size st + pt_len in
          nonce <- lift (_derive_nonce nonce_prefix (st_chunk_index st)) ;;
          aad <- lift (_build_aad MAGIC VERSION ALGO_AES_GCM_CHUNKED
                         chunk_bytes nonce_prefix (st_chunk_index st) pt_len) ;;
          ciphertext_with_tag <-
            aesgcm_encrypt_call key nonce plaintext_chunk aad ;;
          record_header <- lift (Struct.pack Struct.fmt_I pt_len) ;;
          file_write output_path record_header ;;;
          file_write output_path ciphertext_with_tag ;;;
          let hasher := hasher_update (st_hasher st) record_header in
          let hasher := hasher_update hasher ciphertext_with_tag in
          encrypt_loop fuel' output_path key chunk_bytes nonce_prefix
            (mkLoop rest (st_chunk_index st + 1) plaintext_size hasher)
      end
  end.

(** [encrypt_file] *)
Definition encrypt_file (input_path output_path : string) (key : bytes)
    (chunk_bytes : Z) : M (string * Z) :=
  if negb (length key =? 32)%nat
  then raise (ValueError "Key must be 32 bytes for AES-256")
  else if (chunk_bytes <? 1024) || (chunk_bytes >? 64 * 1024 * 1024)
  then raise (ValueError "chunk_bytes must be between 1KB and 64MB")
  else
    nonce_prefix <- os_urandom NONCE_PREFIX_SIZE ;;
    let plaintext_size := 0 in
    let ciphertext_hasher := [] in
    fin <- open_rb input_path ;;
    open_w output_path ;;;
    header <- lift (_build_header chunk_bytes nonce_prefix) ;;
    file_write output_path header ;;;
    let ciphertext_hasher := hasher_update ciphertext_hasher header in
    let chunk_index := 0 in
    st <- encrypt_loop (S (length fin)) output_path key chunk_bytes
            nonce_prefix
            (mkLoop fin chunk_index plaintext_size ciphertext_hasher) ;;
    let ciphertext_sha256 := hexdigest (st_hasher st) in
    ret (ciphertext_sha256, st_plaintext_size st).

(** The dict [write_manifest] builds, in insertion order. *)
Definition manifest_dict (asset_id weights_filename : string)
    (chunk_bytes plaintext_bytes : Z) (sha256_ciphertext : string) : json :=
  JObj [ ("format", JStr "tbenc/v1");
         ("algo", JStr "aes-256-gcm-chunked");
         ("chunk_bytes", JInt chunk_bytes);
         ("plaintext_bytes", JInt plaintext_bytes);
         ("sha256_ciphertext", JStr sha256_ciphertext);
         ("asset_id", JStr asset_id);
         ("weights_filename", JStr weights_filename) ]%string.

(** [write_manifest] *)
Definition write_manifest (manifest_path asset_id weights_filename : string)
    (chunk_bytes plaintext_bytes : Z) (sha256_ciphertext : string) : M unit :=
  let manifest := manifest_dict asset_id weights_filename chunk_bytes
                    plaintext_bytes sha256_ciphertext in
  open_w manifest_path ;;;
  file_write manifest_path (json_dumps manifest).

(** [s.rsplit(".", 1)[0]]: what precedes the last dot, or all of [s]. *)
Fixpoint has_dot (s : string) : bool :=
  match s with
  | EmptyString => false
  | String c r => (c =? ".")%char || has_dot r
  end.

Fixpoint rsplit_dot_head (s : string) : string :=
  match s with
  | EmptyString => EmptyString
  | String c r =>
      if has_dot r then String c (rsplit_dot_head r)
      else if (c =? ".")%char then EmptyString
      else String c (rsplit_dot_head r)
  end.

(** [dir / name] on [pathlib] paths: an absolute [name] replaces [dir]. *)
Definition path_join (dir name : string) : string :=
  match name with
  | String "/" _ => name
  | _ => (dir ++ "/" ++ name)%string
  end.

(** [encrypt_and_generate_manifest] *)
Definition encrypt_and_generate_manifest (input_path output_dir asset_id : string)
    (chunk_bytes : Z) (output_filename : string)
  : M (bytes * string * string) :=
  emit (EvMkdir output_dir) ;;;
  key <- generate_key ;;
  let encrypted_path := path_join output_dir output_filename in
  let manifest_path :=
    path_join output_dir
      (rsplit_dot_head output_filename ++ ".manifest.json")%string in
  r <- encrypt_file input_path encrypted_path key chunk_bytes ;;
  let '(ciphertext_sha256, plaintext_size) := r in
  write_manifest manifest_path asset_id output_filename chunk_bytes
    plaintext_size ciphertext_sha256 ;;;
  ret (key, encrypted_path, manifest_path).

End Encoder.

End Tbenc.

(** ** Stand-ins for the external libraries

    Small executable instances of the interfaces above, used to run the
    definitions on concrete inputs.  The cipher leaves the data as it is
    and appends a 16-byte checksum of nonce, associated data and data;
    the digest is a 32-byte checksum. *)

Module Stub.

Definition checksum (bs : bytes) : Z :=
  fold_left (fun acc b => acc * 31 + Struct.Z_of_byte b + 1) bs 7.

Definition tag (nonce data aad : bytes) : bytes :=
  Struct.be_bytes 16 (checksum (nonce ++ aad ++ data)).

Definition encrypt (key nonce data aad : bytes) : bytes :=
  data ++ tag nonce data aad.

Definition decrypt (key nonce ct aad : bytes) : option bytes :=
  let n := (length ct - 16)%nat in
  let data := take n ct in
  if bool_decide (drop n ct = tag nonce data aad) then Some data else None.

Definition digest (m : bytes) : bytes := Struct.be_bytes 32 (checksum m).

Definition quote : string := String (ascii_of_nat 34) EmptyString.

Fixpoint dumps (j : json) : string :=
  match j with
  | JNull => "null"
  | JBool b => if b then "true" else "false"
  | JInt n => pretty n
  | JStr s => quote ++ s ++ quote
  | JArr items => "[" ++ String.concat "," (map dumps items) ++ "]"
  | JObj fields =>
      "{" ++ String.concat ","
               (map (fun kv => quote ++ fst kv ++ quote ++ ":" ++ dumps (snd kv))
                    fields) ++ "}"
  end%string.

Definition json_dumps (j : json) : bytes := bytes_of_string (dumps j).

Definition zeros : nat -> byte := fun _ => x00.

Definition counter : nat -> byte := fun i => Struct.byte_of_Z (Z.of_nat i).

End Stub.

(** * Properties *)

(** ** Big-endian packing *)

Module StructFacts.
Import Struct.

Lemma Z_of_byte_range (b : byte) : 0 <= Z_of_byte b < 256.
Proof.
  unfold Z_of_byte. pose proof (Byte.to_N_bounded b). lia.
Qed.

Lemma land_255_range (z : Z) : 0 <= Z.land z 255 < 256.
Proof.
  change 255 with (Z.ones 8). rewrite Z.land_ones by lia.
  apply Z.mod_pos_bound. lia.
Qed.

Lemma Z_of_byte_of_Z (z : Z) : Z_of_byte (byte_of_Z z) = Z.land z 255.
Proof.
  unfold Z_of_byte, byte_of_Z.
  pose proof (land_255_range z) as Hr.
  destruct (Byte.of_N (Z.to_N (Z.land z 255))) as [b|] eqn:E.
  - apply Byte.to_of_N in E. simpl. rewrite E. lia.
  - apply Byte.of_N_None_iff in E. lia.
Qed.

Lemma byte_of_Z_of_byte (b : byte) : byte_of_Z (Z_of_byte b) = b.
Proof.
  unfold byte_of_Z.
  pose proof (Z_of_byte_range b) as Hr.
  change 255 with (Z.ones 8). rewrite Z.land_ones by lia.
  rewrite Z.mod_small by lia.
  unfold Z_of_byte. rewrite N2Z.id, Byte.of_to_N. reflexivity.
Qed.

Lemma length_be_bytes (w : nat) (x : Z) : length (be_bytes w x) = w.
Proof.
  revert x. induction w as [|w IH]; intros x; simpl; [reflexivity|].
  rewrite length_app, IH. simpl. lia.
Qed.

Lemma be_value_snoc (bs : bytes) (b : byte) :
  be_value (bs ++ [b]) = Z.lor (Z.shiftl (be_value bs) 8) (Z_of_byte b).
Proof. unfold be_value. rewrite fold_left_app. reflexivity. Qed.

Lemma split_low_byte (x : Z) :
  Z.lor (Z.shiftl (Z.shiftr x 8) 8) (Z.land x 255) = x.
Proof.
  apply Z.bits_inj'. intros n Hn.
  rewrite Z.lor_spec, Z.land_spec, Z.shiftl_spec by lia.
  change 255 with (Z.ones 8).
  destruct (Z.ltb_spec n 8) as [Hlt|Hge].
  - rewrite Z.testbit_neg_r by lia.
    rewrite Z.ones_spec_low by lia. simpl. apply andb_true_r.
  - rewrite Z.shiftr_spec by lia.
    rewrite Z.ones_spec_high by lia.
    rewrite andb_false_r, orb_false_r. f_equal. lia.
Qed.

(** Unpacking undoes packing on every value that fits the width. *)
Lemma be_value_be_bytes (w : nat) (x : Z) :
  0 <= x < 2 ^ (8 * Z.of_nat w) -> be_value (be_bytes w x) = x.
Proof.
  revert x. induction w as [|w IH]; intros x Hx.
  - simpl in *. unfold be_value. simpl. lia.
  - simpl be_bytes. rewrite be_value_snoc, Z_of_byte_of_Z.
    rewrite IH; [apply split_low_byte|].
    rewrite Z.shiftr_div_pow2 by lia.
    replace (8 * Z.of_nat (S w)) with (8 + 8 * Z.of_nat w) in Hx by lia.
    rewrite Z.pow_add_r in Hx by lia.
    split; [apply Z.div_pos; lia|].
    apply Z.div_lt_upper_bound; lia.
Qed.

Lemma be_bytes_inj (w : nat) (x y : Z) :
  0 <= x < 2 ^ (8 * Z.of_nat w) -> 0 <= y < 2 ^ (8 * Z.of_nat w) ->
  be_bytes w x = be_bytes w y -> x = y.
Proof.
  intros Hx Hy E.
  rewrite <- (be_value_be_bytes w x Hx), <- (be_value_be_bytes w y Hy).
  now rewrite E.
Qed.

Lemma in_range_spec (f : fmt) (x : Z) :
  in_range f x = true <-> 0 <= x < 2 ^ (8 * Z.of_nat (size f)).
Proof. unfold in_range. rewrite andb_true_iff. lia. Qed.

Lemma pack_ok (f : fmt) (x : Z) :
  0 <= x < 2 ^ (8 * Z.of_nat (size f)) ->
  pack f x = Ok (be_bytes (size f) x).
Proof.
  intros Hx. unfold pack.
  now rewrite (proj2 (in_range_spec f x) Hx).
Qed.

Lemma pack_raise (f : fmt) (x : Z) :
  ~ (0 <= x < 2 ^ (8 * Z.of_nat (size f))) -> pack f x = Raise StructError.
Proof.
  intros Hx. unfold pack.
  destruct (in_range f x) eqn:E; [|reflexivity].
  apply in_range_spec in E. contradiction.
Qed.

Lemma pack_length (f : fmt) (x : Z) (bs : bytes) :
  pack f x = Ok bs -> length bs = size f.
Proof.
  unfold pack. destruct (in_range f x); [|discriminate].
  intros [= <-]. apply length_be_bytes.
Qed.

End StructFacts.

(** ** The monad *)

Lemma bind_ok {A B} (m : M A) (k : A -> M B) (w w' : World) (a : A) :
  m w = (Ok a, w') -> bind m k w = k a w'.
Proof. intros E. unfold bind. now rewrite E. Qed.

Lemma bind_raise {A B} (m : M A) (k : A -> M B) (w w' : World) (e : exn) :
  m w = (Raise e, w') -> bind m k w = (Raise e, w').
Proof. intros E. unfold bind. now rewrite E. Qed.

(** ** Header, nonce and associated data *)

Module CodecFacts.
Import Struct StructFacts Tbenc.

(** The wire layout of the header (section 3 of the format). *)
Definition header_layout (chunk_bytes : Z) (nonce_prefix : bytes) : bytes :=
  MAGIC ++ be_bytes 2 VERSION ++ be_bytes 1 ALGO_AES_GCM_CHUNKED
        ++ be_bytes 4 chunk_bytes ++ nonce_prefix ++ repeat x00 13.

Definition nonce_layout (nonce_prefix : bytes) (chunk_index : Z) : bytes :=
  nonce_prefix ++ be_bytes 8 chunk_index.

Definition aad_layout (chunk_bytes : Z) (nonce_prefix : bytes)
    (chunk_index pt_len : Z) : bytes :=
  MAGIC ++ be_bytes 2 VERSION ++ be_bytes 1 ALGO_AES_GCM_CHUNKED
        ++ be_bytes 4 chunk_bytes ++ nonce_prefix
        ++ be_bytes 8 chunk_index ++ be_bytes 4 pt_len.

Lemma length_MAGIC : length MAGIC = 8%nat.
Proof. reflexivity. Qed.

Lemma length_header_layout (cb : Z) (np : bytes) :
  length np = 4%nat -> length (header_layout cb np) = 32%nat.
Proof.
  intros Hnp. unfold header_layout.
  rewrite !length_app, !length_be_bytes, length_MAGIC, Hnp, repeat_length.
  reflexivity.
Qed.

Lemma length_nonce_layout (np : bytes) (i : Z) :
  length np = 4%nat -> length (nonce_layout np i) = 12%nat.
Proof.
  intros Hnp. unfold nonce_layout.
  rewrite length_app, length_be_bytes, Hnp. reflexivity.
Qed.

Lemma length_aad_layout (cb : Z) (np : bytes) (i len : Z) :
  length np = 4%nat -> length (aad_layout cb np i len) = 31%nat.
Proof.
  intros Hnp. unfold aad_layout.
  rewrite !length_app, !length_be_bytes, length_MAGIC, Hnp. reflexivity.
Qed.

Lemma build_header_ok (cb : Z) (np : bytes) :
  length np = 4%nat -> 0 <= cb < 2 ^ 32 ->
  _build_header cb np = Ok (header_layout cb np).
Proof.
  intros Hnp Hcb.
  destruct np as [|a [|b [|c [|d [|? ?]]]]]; try discriminate Hnp.
  unfold _build_header, pack_into. simpl negb. cbv iota.
  rewrite (pack_ok fmt_H VERSION) by (simpl; unfold VERSION; lia).
  rewrite (pack_ok fmt_B ALGO_AES_GCM_CHUNKED)
    by (simpl; unfold ALGO_AES_GCM_CHUNKED; lia).
  rewrite (pack_ok fmt_I cb) by (simpl; lia).
  reflexivity.
Qed.

Lemma build_header_bad_prefix (cb : Z) (np : bytes) :
  length np <> 4%nat ->
  _build_header cb np = Raise (ValueError "nonce_prefix must be 4 bytes").
Proof.
  intros Hnp. unfold _build_header.
  destruct (Nat.eqb_spec (length np) NONCE_PREFIX_SIZE) as [E|E];
    [contradiction|reflexivity].
Qed.

Lemma build_header_bad_width (cb : Z) (np : bytes) :
  length np = 4%nat -> ~ (0 <= cb < 2 ^ 32) ->
  _build_header cb np = Raise StructError.
Proof.
  intros Hnp Hcb.
  unfold _build_header, pack_into. rewrite Hnp. simpl negb. cbv iota.
  rewrite (pack_ok fmt_H VERSION) by (simpl; unfold VERSION; lia).
  cbv beta iota zeta.
  destruct (_ <=? _)%nat; [|reflexivity].
  rewrite (pack_ok fmt_B ALGO_AES_GCM_CHUNKED)
    by (simpl; unfold ALGO_AES_GCM_CHUNKED; lia).
  destruct (_ <=? _)%nat; [|reflexivity].
  rewrite (pack_raise fmt_I cb) by (simpl; lia).
  reflexivity.
Qed.

Lemma derive_nonce_ok (np : bytes) (i : Z) :
  0 <= i < 2 ^ 64 -> _derive_nonce np i = Ok (nonce_layout np i).
Proof.
  intros Hi. unfold _derive_nonce.
  rewrite (pack_ok fmt_Q i) by (simpl; lia). reflexivity.
Qed.

Lemma build_aad_ok (magic : bytes) (version algo cb : Z) (np : bytes)
    (i len : Z) :
  0 <= version < 2 ^ 16 -> 0 <= algo < 2 ^ 8 -> 0 <= cb < 2 ^ 32 ->
  0 <= i < 2 ^ 64 -> 0 <= len < 2 ^ 32 ->
  _build_aad magic version algo cb np i len
  = Ok (magic ++ be_bytes 2 version ++ be_bytes 1 algo ++ be_bytes 4 cb
              ++ np ++ be_bytes 8 i ++ be_bytes 4 len).
Proof.
  intros Hv Ha Hcb Hi Hlen. unfold _build_aad.
  rewrite (pack_ok fmt_H version) by (simpl; lia).
  rewrite (pack_ok fmt_B algo) by (simpl; lia).
  rewrite (pack_ok fmt_I cb) by (simpl; lia).
  rewrite (pack_ok fmt_Q i) by (simpl; lia).
  rewrite (pack_ok fmt_I len) by (simpl; lia).
  simpl size. rewrite <- !app_assoc. reflexivity.
Qed.

Lemma nonce_layout_inj (np : bytes) (i j : Z) :
  0 <= i < 2 ^ 64 -> 0 <= j < 2 ^ 64 ->
  nonce_layout np i = nonce_layout np j -> i = j.
Proof.
  intros Hi Hj E. unfold nonce_layout in E.
  apply app_inv_head in E.
  apply (be_bytes_inj 8 i j); simpl; try lia. exact E.
Qed.

End CodecFacts.

(** ** The encoder *)

(** The chunks successive [read(n)] calls return, [fuel] of them at most. *)
Fixpoint chunks (fuel n : nat) (l : bytes) : list bytes :=
  match fuel with
  | O => []
  | S fuel' =>
      match take n l with
      | [] => []
      | c :: cs => (c :: cs) :: chunks fuel' n (drop n l)
      end
  end.

Section LoopFacts.
Import Struct StructFacts Tbenc CodecFacts.

Context `{AEAD} `{SHA256}.

Variables (out : string) (key : bytes) (cb : Z) (np : bytes).

Definition sealed (i : Z) (c : bytes) : bytes :=
  aesgcm_encrypt key (nonce_layout np i) c
    (aad_layout cb np i (Z.of_nat (length c))).

Definition record_bytes (i : Z) (c : bytes) : bytes :=
  be_bytes 4 (Z.of_nat (length c)) ++ sealed i c.

Fixpoint records_from (i : Z) (cs : list bytes) : bytes :=
  match cs with
  | [] => []
  | c :: cs' => record_bytes i c ++ records_from (i + 1) cs'
  end.

Fixpoint events_from (i : Z) (cs : list bytes) : list io_event :=
  match cs with
  | [] => []
  | c :: cs' =>
      EvEncrypt (nonce_layout np i) (aad_layout cb np i (Z.of_nat (length c)))
      :: EvWrite out (be_bytes 4 (Z.of_nat (length c)))
      :: EvWrite out (sealed i c)
      :: events_from (i + 1) cs'
  end.

Hypothesis Hcb : 1 <= cb < 2 ^ 32.

Lemma encrypt_loop_spec (fuel : nat) :
  forall (st : loop_state) (w : World) (C0 : bytes),
    (length (st_fin st) < fuel)%nat ->
    0 <= st_chunk_index st ->
    st_chunk_index st + Z.of_nat (length (st_fin st)) <= 2 ^ 64 ->
    fs w !! out = Some C0 ->
    let cs := chunks fuel (Z.to_nat cb) (st_fin st) in
    let i := st_chunk_index st in
    encrypt_loop fuel out key cb np st w
    = (Ok (mkLoop [] (i + Z.of_nat (length cs))
             (st_plaintext_size st + Z.of_nat (length (st_fin st)))
             (st_hasher st ++ records_from i cs)),
       mkWorld (<[out := C0 ++ records_from i cs]> (fs w))
               (log w ++ events_from i cs) (entropy w) (entropy_pos w)).
Proof.
  induction fuel as [|fuel IH]; intros st w C0 Hfuel Hi Hbound Hout; [lia|].
  destruct st as [rest i psize hasher]. simpl in Hfuel, Hi, Hbound.
  cbn [st_fin st_chunk_index st_plaintext_size st_hasher].
  cbn [encrypt_loop chunks]. unfold file_read.
  destruct (Z.ltb_spec cb 0) as [?|_]; [lia|].
  cbn [st_fin st_chunk_index st_plaintext_size st_hasher].
  destruct (take (Z.to_nat cb) rest) as [|c0 cs0] eqn:Etake.
  - assert (rest = []) as ->.
    { destruct rest as [|r rest']; [reflexivity|].
      destruct (Z.to_nat cb) eqn:En; [lia|]. discriminate Etake. }
    cbn. unfold ret. destruct w as [f l e p]. cbn in *.
    change (Z.of_nat 0) with 0.
    rewrite !Z.add_0_r, !app_nil_r, insert_id by assumption. reflexivity.
  - rewrite <- Etake.
    set (chunk := take (Z.to_nat cb) rest).
    assert (Hlen : (1 <= length chunk <= Z.to_nat cb)%nat).
    { unfold chunk. split; [rewrite Etake; simpl; lia|].
      rewrite length_take. lia. }
    assert (Hlen' : (length chunk <= length rest)%nat).
    { unfold chunk. rewrite length_take. lia. }
    assert (Hdrop : length (drop (Z.to_nat cb) rest)
                    = (length rest - Z.to_nat cb)%nat) by apply length_drop.
    assert (Hsplit : length rest
                     = (length chunk + length (drop (Z.to_nat cb) rest))%nat).
    { unfold chunk. rewrite length_take, length_drop. lia. }
    rewrite (bind_ok _ _ w w (nonce_layout np i));
      [|unfold lift; rewrite derive_nonce_ok by lia; reflexivity].
    rewrite (bind_ok _ _ w w (aad_layout cb np i (Z.of_nat (length chunk))));
      [|unfold lift, aad_layout;
        rewrite build_aad_ok
          by (unfold VERSION, ALGO_AES_GCM_CHUNKED; lia); reflexivity].
    unfold aesgcm_encrypt_call, emit, ret, file_write, lift.
    rewrite (pack_ok fmt_I (Z.of_nat (length chunk))) by (simpl; lia).
    unfold bind at 1 2 3 4 5. cbn [fs log entropy entropy_pos].
    rewrite Hout. cbn [from_option id].
    rewrite lookup_insert_eq. cbn [from_option id]. rewrite insert_insert_eq.
    erewrite IH; cbn [st_fin st_chunk_index st_plaintext_size st_hasher
                      fs log entropy entropy_pos];
      [|lia|lia|lia|apply lookup_insert_eq].
    rewrite insert_insert_eq.
    unfold hasher_update, record_bytes, sealed. cbn [Struct.size].
    cbn [records_from events_from length].
    unfold record_bytes, sealed. fold chunk.
    f_equal.
    + f_equal. f_equal.
      * lia.
      * lia.
      * rewrite <- !app_assoc. reflexivity.
    + f_equal.
      * f_equal. rewrite <- !app_assoc. reflexivity.
      * rewrite <- !app_assoc. reflexivity.
Qed.

End LoopFacts.

(** ** Chunking *)

Definition ceil_div (a b : Z) : Z := (a + b - 1) / b.

Lemma ceil_div_0 (b : Z) : 0 < b -> ceil_div 0 b = 0.
Proof. intros Hb. unfold ceil_div. apply Z.div_small. lia. Qed.

Lemma ceil_div_le (a b : Z) : 0 < a <= b -> ceil_div a b = 1.
Proof.
  intros Hab. unfold ceil_div.
  symmetry. apply (Z.div_unique_pos _ _ 1 (a - 1)); lia.
Qed.

Lemma ceil_div_step (a b : Z) : 0 < b -> ceil_div (a + b) b = ceil_div a b + 1.
Proof.
  intros Hb. unfold ceil_div.
  replace (a + b + b - 1) with (a + b - 1 + 1 * b) by lia.
  apply Z.div_add. lia.
Qed.

Lemma ceil_div_bounds (a b : Z) :
  0 < b -> 0 <= a -> b * (ceil_div a b - 1) < a + (if a =? 0 then 1 else 0)
                     /\ a <= b * ceil_div a b.
Proof.
  intros Hb Ha. unfold ceil_div.
  pose proof (Z.div_mod (a + b - 1) b ltac:(lia)) as Hdm.
  pose proof (Z.mod_pos_bound (a + b - 1) b Hb) as Hm.
  destruct (Z.eqb_spec a 0); lia.
Qed.

Section ChunkFacts.

Variable n : nat.
Hypothesis Hn : (0 < n)%nat.

Lemma take_nil_inv (l : bytes) : take n l = [] -> l = [].
Proof.
  destruct l as [|x l]; [reflexivity|].
  destruct n; [lia|discriminate].
Qed.

Lemma chunks_nil (fuel : nat) : chunks fuel n [] = [].
Proof. destruct fuel; [reflexivity|]. simpl. now rewrite take_nil. Qed.

Lemma chunks_cons (fuel : nat) (l : bytes) :
  l <> [] ->
  chunks (S fuel) n l = take n l :: chunks fuel n (drop n l).
Proof.
  intros Hl. simpl.
  destruct (take n l) eqn:E; [|reflexivity].
  apply take_nil_inv in E. contradiction.
Qed.

Lemma chunks_concat (fuel : nat) :
  forall l : bytes, (length l <= fuel)%nat -> concat (chunks fuel n l) = l.
Proof.
  induction fuel as [|fuel IH]; intros l Hl.
  - destruct l; [reflexivity|simpl in Hl; lia].
  - destruct l as [|x l]; [now rewrite chunks_nil|].
    rewrite chunks_cons by discriminate.
    cbn [concat]. rewrite IH; [apply take_drop|].
    rewrite length_drop. simpl in *. lia.
Qed.

Lemma chunks_length (fuel : nat) :
  forall l : bytes, (length l <= fuel)%nat ->
    Z.of_nat (length (chunks fuel n l))
    = ceil_div (Z.of_nat (length l)) (Z.of_nat n).
Proof.
  induction fuel as [|fuel IH]; intros l Hl.
  - destruct l; [|simpl in Hl; lia].
    simpl. rewrite ceil_div_0; lia.
  - destruct l as [|x l]; [rewrite chunks_nil; simpl; rewrite ceil_div_0; lia|].
    rewrite chunks_cons by discriminate.
    set (L := length (x :: l)) in *.
    assert (HL : (1 <= L)%nat) by (unfold L; simpl; lia).
    change (length (take n (x :: l) :: chunks fuel n (drop n (x :: l))))
      with (S (length (chunks fuel n (drop n (x :: l))))).
    rewrite Nat2Z.inj_succ, IH by (rewrite length_drop; fold L; lia).
    rewrite length_drop. fold L.
    destruct (Nat.le_gt_cases L n) as [Hle|Hgt].
    + replace (L - n)%nat with 0%nat by lia.
      rewrite ceil_div_0 by lia.
      rewrite ceil_div_le; lia.
    + replace (Z.of_nat L) with (Z.of_nat (L - n) + Z.of_nat n) by lia.
      rewrite ceil_div_step by lia. lia.
Qed.

(** Every chunk but the last is full; the last holds what is left. *)
Lemma chunks_lookup (fuel : nat) :
  forall (l : bytes) (j : nat) (c : bytes),
    (length l <= fuel)%nat ->
    chunks fuel n l !! j = Some c ->
    let N := ceil_div (Z.of_nat (length l)) (Z.of_nat n) in
    Z.of_nat (length c)
    = (if Z.of_nat j + 1 <? N then Z.of_nat n
       else Z.of_nat (length l) - (N - 1) * Z.of_nat n)
    /\ (1 <= length c <= n)%nat.
Proof.
  induction fuel as [|fuel IH]; intros l j c Hl Hj N.
  - destruct l; simpl in Hj; [discriminate|simpl in Hl; lia].
  - destruct l as [|x l]; [rewrite chunks_nil in Hj; discriminate|].
    rewrite chunks_cons in Hj by discriminate.
    set (L := length (x :: l)) in *.
    assert (HL : (1 <= L)%nat) by (unfold L; simpl; lia).
    destruct (Nat.le_gt_cases L n) as [Hle|Hgt].
    + assert (HN : N = 1) by (unfold N; apply ceil_div_le; lia).
      destruct j as [|j].
      * injection Hj as <-. rewrite length_take. fold L.
        destruct (Z.ltb_spec (Z.of_nat 0 + 1) N); split; lia.
      * cbn in Hj. rewrite drop_ge in Hj by (fold L; lia).
        rewrite chunks_nil in Hj. discriminate.
    + assert (HN : N = ceil_div (Z.of_nat (L - n)) (Z.of_nat n) + 1).
      { unfold N.
        replace (Z.of_nat L) with (Z.of_nat (L - n) + Z.of_nat n) by lia.
        apply ceil_div_step. lia. }
      assert (HN' : 1 <= ceil_div (Z.of_nat (L - n)) (Z.of_nat n)).
      { pose proof (ceil_div_bounds (Z.of_nat (L - n)) (Z.of_nat n)
                      ltac:(lia) ltac:(lia)) as [_ Hb].
        nia. }
      destruct j as [|j].
      * injection Hj as <-. rewrite length_take. fold L.
        destruct (Z.ltb_spec (Z.of_nat 0 + 1) N); split; lia.
      * cbn in Hj. apply IH in Hj; [|rewrite length_drop; fold L; lia].
        rewrite length_drop in Hj. fold L in Hj.
        destruct Hj as [Hj1 Hj2]. split; [|exact Hj2].
        rewrite Hj1, HN.
        destruct (Z.ltb_spec (Z.of_nat j + 1)
                    (ceil_div (Z.of_nat (L - n)) (Z.of_nat n)));
          destruct (Z.ltb_spec (Z.of_nat (S j) + 1)
                    (ceil_div (Z.of_nat (L - n)) (Z.of_nat n) + 1));
          lia.
Qed.

End ChunkFacts.

(** ** [encrypt_file] as a whole *)

(** A record of the ciphertext file (section 3 of the format). *)
Record record : Type := mkRecord {
  pt_len : Z;
  ct_and_tag : bytes
}.

Definition encode_record (r : record) : bytes :=
  Struct.be_bytes 4 (pt_len r) ++ ct_and_tag r.

Section EncryptFileFacts.
Import Struct StructFacts Tbenc CodecFacts.

Context `{AEAD} `{SHA256}.

(** The nonce prefix [encrypt_file] draws in world [w]. *)
Definition drawn_prefix (w : World) : bytes :=
  map (entropy w) (seq (entropy_pos w) NONCE_PREFIX_SIZE).

Lemma length_drawn_prefix (w : World) : length (drawn_prefix w) = 4%nat.
Proof. unfold drawn_prefix. now rewrite length_map, length_seq. Qed.

(** The chunks [encrypt_file] reads from a file holding [plaintext]. *)
Definition chunks_read (chunk_bytes : Z) (plaintext : bytes) : list bytes :=
  chunks (S (length plaintext)) (Z.to_nat chunk_bytes) plaintext.

(** The bytes [encrypt_file] leaves in the output file. *)
Definition ciphertext_of (w : World) (key : bytes) (chunk_bytes : Z)
    (plaintext : bytes) : bytes :=
  header_layout chunk_bytes (drawn_prefix w)
  ++ records_from key chunk_bytes (drawn_prefix w) 0
       (chunks_read chunk_bytes plaintext).

Fixpoint record_list (key : bytes) (cb : Z) (np : bytes) (i : Z)
    (cs : list bytes) : list record :=
  match cs with
  | [] => []
  | c :: cs' =>
      mkRecord (Z.of_nat (length c)) (sealed key cb np i c)
      :: record_list key cb np (i + 1) cs'
  end.

Lemma length_record_list key cb np i cs :
  length (record_list key cb np i cs) = length cs.
Proof. revert i. induction cs; intros i; simpl; [|rewrite IHcs]; reflexivity. Qed.

Lemma records_from_record_list key cb np i cs :
  records_from key cb np i cs
  = concat (map encode_record (record_list key cb np i cs)).
Proof.
  revert i. induction cs as [|c cs IH]; intros i; [reflexivity|].
  cbn [records_from record_list map concat]. now rewrite IH.
Qed.

Lemma record_list_lookup key cb np i cs (j : nat) (r : record) :
  record_list key cb np i cs !! j = Some r ->
  exists c, cs !! j = Some c
            /\ r = mkRecord (Z.of_nat (length c))
                            (sealed key cb np (i + Z.of_nat j) c).
Proof.
  revert i j. induction cs as [|c cs IH]; intros i j Hj; [discriminate|].
  destruct j as [|j].
  - injection Hj as <-. exists c. split; [reflexivity|].
    now rewrite Z.add_0_r.
  - cbn in Hj. apply IH in Hj as (c' & Hc' & ->).
    exists c'. split; [exact Hc'|]. do 2 f_equal. lia.
Qed.

Lemma length_sealed key cb np i c :
  length key = 32%nat -> length np = 4%nat ->
  length (sealed key cb np i c) = (length c + 16)%nat.
Proof.
  intros Hkey Hnp. unfold sealed.
  apply aesgcm_encrypt_length; [exact Hkey|].
  now apply length_nonce_layout.
Qed.

Lemma length_records_from key cb np i cs :
  length key = 32%nat -> length np = 4%nat ->
  length (records_from key cb np i cs)
  = (length (concat cs) + 20 * length cs)%nat.
Proof.
  intros Hkey Hnp. revert i.
  induction cs as [|c cs IH]; intros i; [reflexivity|].
  cbn [records_from concat length]. unfold record_bytes.
  rewrite !length_app, length_be_bytes, length_sealed, IH by assumption.
  lia.
Qed.

(** What a call of [encrypt_file] on a readable input returns and
    leaves behind. *)
Lemma encrypt_file_spec (w : World) (input_path output_path : string)
    (key : bytes) (chunk_bytes : Z) (plaintext : bytes) :
  length key = 32%nat ->
  1024 <= chunk_bytes <= 67108864 ->
  fs w !! input_path = Some plaintext ->
  Z.of_nat (length plaintext) < 2 ^ 64 ->
  let np := drawn_prefix w in
  let cs := chunks_read chunk_bytes plaintext in
  let C := ciphertext_of w key chunk_bytes plaintext in
  encrypt_file input_path output_path key chunk_bytes w
  = (Ok (hexlify (sha256 C), Z.of_nat (length plaintext)),
     mkWorld (<[output_path := C]> (fs w))
             (log w ++ [EvOpenRead input_path; EvOpenWrite output_path;
                        EvWrite output_path (header_layout chunk_bytes np)]
                    ++ events_from output_path key chunk_bytes np 0 cs)
             (entropy w) (entropy_pos w + NONCE_PREFIX_SIZE)).
Proof.
  intros Hkey Hcb Hin Hsize np cs C.
  unfold encrypt_file. rewrite Hkey. cbn [Nat.eqb negb].
  destruct (Z.ltb_spec chunk_bytes 1024) as [?|_]; [lia|].
  destruct (Z.gtb_spec chunk_bytes (64 * 1024 * 1024)) as [?|_]; [lia|].
  cbn [orb].
  unfold os_urandom, open_rb, open_w, file_write, lift, ret.
  unfold bind at 1. fold (drawn_prefix w). fold np.
  unfold bind at 1. cbn [fs log entropy entropy_pos]. rewrite Hin.
  unfold bind at 1. unfold bind at 1.
  rewrite build_header_ok by (try apply length_drawn_prefix; lia).
  unfold bind at 1. cbn [fs log entropy entropy_pos].
  rewrite lookup_insert_eq. cbn [from_option id app]. rewrite insert_insert_eq.
  unfold bind.
  rewrite (encrypt_loop_spec output_path key chunk_bytes np ltac:(lia)
             (S (length plaintext)) _ _ (header_layout chunk_bytes np));
    cbn [st_fin st_chunk_index st_plaintext_size st_hasher
         fs log entropy entropy_pos];
    [|lia|lia|lia|apply lookup_insert_eq].
  rewrite insert_insert_eq. unfold hexdigest, hasher_update.
  cbn [app]. rewrite Z.add_0_l, <- !app_assoc. reflexivity.
Qed.

End EncryptFileFacts.

Section EncoderClaims.
Import Struct StructFacts Tbenc CodecFacts.

Context `{AEAD} `{SHA256}.

Lemma chunks_read_concat (cb : Z) (P : bytes) :
  1 <= cb -> concat (chunks_read cb P) = P.
Proof. intros Hcb. apply chunks_concat; lia. Qed.

Lemma chunks_read_length (cb : Z) (P : bytes) :
  1 <= cb ->
  Z.of_nat (length (chunks_read cb P)) = ceil_div (Z.of_nat (length P)) cb.
Proof.
  intros Hcb. unfold chunks_read.
  rewrite chunks_length by lia. f_equal. lia.
Qed.

Lemma chunks_read_lookup (cb : Z) (P : bytes) (j : nat) (c : bytes) :
  1 <= cb ->
  chunks_read cb P !! j = Some c ->
  let N := ceil_div (Z.of_nat (length P)) cb in
  Z.of_nat (length c)
  = (if Z.of_nat j + 1 <? N then cb
     else Z.of_nat (length P) - (N - 1) * cb)
  /\ 1 <= Z.of_nat (length c) <= cb.
Proof.
  intros Hcb Hj N.
  apply chunks_lookup in Hj; [|lia|lia].
  rewrite Z2Nat.id in Hj by lia. fold N in Hj.
  destruct Hj as [Hj1 Hj2]. split; [exact Hj1|lia].
Qed.

(** C1. For every readable input file and every chunk_bytes in
    [1024, 67108864], encrypt_file succeeds, returns the plaintext size
    and leaves in the output file the 32-byte header followed by exactly
    N = ceil(plaintext_size / chunk_bytes) records; every non-final
    record has pt_len = chunk_bytes, the final one has
    pt_len = plaintext_size - (N-1)*chunk_bytes, every pt_len is between
    1 and chunk_bytes, each record is the 4-byte big-endian pt_len
    followed by pt_len + 16 bytes of ciphertext and tag; an empty
    plaintext gives N = 0 and a file that is the header alone; the file
    has 32 + plaintext_size + 20*N bytes. *)
Theorem encrypt_file_layout (w : World) (input_path output_path : string)
    (key : bytes) (chunk_bytes : Z) (plaintext : bytes) :
  length key = 32%nat ->
  1024 <= chunk_bytes <= 67108864 ->
  input_path <> output_path ->
  fs w !! input_path = Some plaintext ->
  Z.of_nat (length plaintext) < 2 ^ 64 ->
  let plaintext_size := Z.of_nat (length plaintext) in
  let N := ceil_div plaintext_size chunk_bytes in
  exists (digest : string) (w' : World) (header : bytes) (recs : list record),
    encrypt_file input_path output_path key chunk_bytes w
    = (Ok (digest, plaintext_size), w')
    /\ length header = 32%nat
    /\ fs w' !! output_path
       = Some (header ++ concat (map encode_record recs))
    /\ Z.of_nat (length recs) = N
    /\ (forall (i : nat) (r : record),
          recs !! i = Some r ->
          pt_len r = (if Z.of_nat i + 1 <? N then chunk_bytes
                      else plaintext_size - (N - 1) * chunk_bytes)
          /\ 1 <= pt_len r <= chunk_bytes
          /\ Z.of_nat (length (ct_and_tag r)) = pt_len r + 16
          /\ encode_record r
             = be_bytes 4 (pt_len r) ++ ct_and_tag r)
    /\ (plaintext = [] -> N = 0 /\ fs w' !! output_path = Some header)
    /\ Z.of_nat (length (header ++ concat (map encode_record recs)))
       = 32 + plaintext_size + 20 * N.
Proof.
  intros Hkey Hcb Hneq Hin Hsize plaintext_size N.
  pose proof (length_drawn_prefix w) as Hnp.
  eexists _, _, (header_layout chunk_bytes (drawn_prefix w)),
    (record_list key chunk_bytes (drawn_prefix w) 0
       (chunks_read chunk_bytes plaintext)).
  split; [apply encrypt_file_spec; assumption|].
  cbn [fs]. rewrite lookup_insert_eq.
  split; [now apply length_header_layout|].
  split; [unfold ciphertext_of; now rewrite records_from_record_list|].
  split; [rewrite length_record_list; apply chunks_read_length; lia|].
  split; [|split].
  - intros i r Hr.
    apply record_list_lookup in Hr as (c & Hc & ->). cbn [pt_len ct_and_tag].
    apply chunks_read_lookup in Hc as [Hc1 Hc2]; [|lia].
    fold plaintext_size N in Hc1.
    rewrite length_sealed by assumption.
    repeat split; lia.
  - intros ->. split; [apply ceil_div_0; lia|].
    unfold ciphertext_of, chunks_read. rewrite chunks_nil by lia.
    cbn [records_from]. now rewrite app_nil_r.
  - rewrite <- records_from_record_list, length_app.
    rewrite length_header_layout, length_records_from by assumption.
    rewrite chunks_read_concat by lia.
    pose proof (chunks_read_length chunk_bytes plaintext ltac:(lia)) as HN.
    fold plaintext_size N in HN. lia.
Qed.

End EncoderClaims.

(** ** The stand-ins satisfy the interfaces *)

Module StubInstances.
Import Struct StructFacts.

Lemma length_tag (nonce data aad : bytes) :
  length (Stub.tag nonce data aad) = 16%nat.
Proof. apply length_be_bytes. Qed.

Lemma stub_encrypt_length (key nonce data aad : bytes) :
  length (Stub.encrypt key nonce data aad) = (length data + 16)%nat.
Proof. unfold Stub.encrypt. now rewrite length_app, length_tag. Qed.

Lemma stub_decrypt_encrypt (key nonce data aad : bytes) :
  Stub.decrypt key nonce (Stub.encrypt key nonce data aad) aad = Some data.
Proof.
  unfold Stub.decrypt. rewrite stub_encrypt_length.
  replace (length data + 16 - 16)%nat with (length data) by lia.
  unfold Stub.encrypt. rewrite take_app_length, drop_app_length.
  now rewrite bool_decide_eq_true_2.
Qed.

#[export] Instance stub_aead : AEAD := {|
  aesgcm_encrypt := Stub.encrypt;
  aesgcm_decrypt := Stub.decrypt;
  aesgcm_encrypt_length := fun key nonce data aad _ _ =>
    stub_encrypt_length key nonce data aad;
  aesgcm_decrypt_encrypt := fun key nonce data aad _ _ =>
    stub_decrypt_encrypt key nonce data aad
|}.

#[export] Instance stub_sha256 : SHA256 := {|
  sha256 := Stub.digest;
  sha256_length := fun m => length_be_bytes 32 (Stub.checksum m)
|}.

(** A world with one plaintext file of five bytes. *)
Definition sample_plaintext : bytes := bytes_of_string "hello".

Definition sample_key : bytes := repeat x07 32.

Definition sample_world : World :=
  mkWorld {[ "plain.bin"%string := sample_plaintext ]} [] Stub.counter 0.

End StubInstances.

(** The nonces handed to [aesgcm.encrypt], in call order. *)
Definition encrypt_nonces (evs : list io_event) : list bytes :=
  omap (fun e => match e with EvEncrypt nonce _ => Some nonce | _ => None end)
       evs.

Section CodecClaims.
Import Struct StructFacts Tbenc CodecFacts.

Context `{AEAD} `{SHA256}.

(** C2. With a 4-byte nonce_prefix and chunk_bytes in range,
    _build_header returns exactly 32 bytes: ASCII TBENC001 at offset 0,
    the big-endian 16-bit version 1 at offset 8, the 8-bit algorithm 1 at
    offset 10, the big-endian 32-bit chunk_bytes at offset 11, the four
    prefix bytes at offset 15 and 13 zero bytes at offset 19; and the
    first 32 bytes of the file encrypt_file writes are the header built
    from chunk_bytes and the prefix it drew. *)
Theorem build_header_layout (w : World) (input_path output_path : string)
    (key : bytes) (chunk_bytes : Z) (plaintext nonce_prefix : bytes) :
  length nonce_prefix = 4%nat ->
  1024 <= chunk_bytes <= 67108864 ->
  length key = 32%nat ->
  input_path <> output_path ->
  fs w !! input_path = Some plaintext ->
  Z.of_nat (length plaintext) < 2 ^ 64 ->
  (exists header : bytes,
      _build_header chunk_bytes nonce_prefix = Ok header
      /\ length header = 32%nat
      /\ slice header 0 8 = bytes_of_string "TBENC001"
      /\ slice header 8 10 = [x00; x01]
      /\ slice header 10 11 = [x01]
      /\ slice header 11 15 = be_bytes 4 chunk_bytes
      /\ be_value (slice header 11 15) = chunk_bytes
      /\ slice header 15 19 = nonce_prefix
      /\ slice header 19 32 = repeat x00 13)
  /\ (exists (r : string * Z) (w' : World) (content : bytes),
         encrypt_file input_path output_path key chunk_bytes w = (Ok r, w')
         /\ fs w' !! output_path = Some content
         /\ _build_header chunk_bytes (drawn_prefix w) = Ok (take 32 content)).
Proof.
  intros Hnp Hcb Hkey Hneq Hin Hsize. split.
  - exists (header_layout chunk_bytes nonce_prefix).
    split; [apply build_header_ok; [assumption|lia]|].
    split; [now apply length_header_layout|].
    assert (Hv : be_value (be_bytes 4 chunk_bytes) = chunk_bytes)
      by (apply be_value_be_bytes; simpl; lia).
    destruct nonce_prefix as [|a [|b [|c [|d [|? ?]]]]]; try discriminate Hnp.
    repeat split; try reflexivity. exact Hv.
  - eexists _, _, _.
    split; [apply (encrypt_file_spec w input_path output_path key
                     chunk_bytes plaintext); assumption|].
    cbn [fs]. rewrite lookup_insert_eq. split; [reflexivity|].
    unfold ciphertext_of.
    rewrite take_app_length'
      by (symmetry; apply length_header_layout, length_drawn_prefix).
    apply build_header_ok; [apply length_drawn_prefix|lia].
Qed.

End CodecClaims.

Section Witnesses.
Import Struct Tbenc StubInstances.

Lemma encrypt_file_layout_witness :
  exists (digest : string) (w' : World) (content : bytes),
    encrypt_file "plain.bin" "out.tbenc" StubInstances.sample_key 1024
      StubInstances.sample_world = (Ok (digest, 5), w')
    /\ fs w' !! "out.tbenc"%string = Some content
    /\ Z.of_nat (length content) = 32 + 5 + 20 * 1.
Proof.
  destruct (encrypt_file_layout StubInstances.sample_world
              "plain.bin" "out.tbenc" StubInstances.sample_key 1024
              StubInstances.sample_plaintext)
    as (digest & w' & header & recs & Hrun & _ & Hfs & _ & _ & _ & Hlen).
  - reflexivity.
  - lia.
  - discriminate.
  - reflexivity.
  - simpl. lia.
  - exists digest, w', (header ++ concat (map encode_record recs)).
    split; [exact Hrun|]. split; [exact Hfs|exact Hlen].
Defined.

Lemma build_header_layout_witness :
  exists header : bytes,
    _build_header 1024 [x0a; x0b; x0c; x0d] = Ok header
    /\ slice header 11 15 = [x00; x00; x04; x00]
    /\ slice header 15 19 = [x0a; x0b; x0c; x0d].
Proof.
  destruct (build_header_layout StubInstances.sample_world
              "plain.bin" "out.tbenc" StubInstances.sample_key 1024
              StubInstances.sample_plaintext [x0a; x0b; x0c; x0d])
    as [(header & Hb & _ & _ & _ & _ & Hcb & _ & Hnp & _) _].
  - reflexivity.
  - lia.
  - reflexivity.
  - discriminate.
  - reflexivity.
  - simpl. lia.
  - exists header. split; [exact Hb|]. split; [exact Hcb|exact Hnp].
Defined.

End Witnesses.

(** * Further properties of the code *)

(** ** [_build_header], [_derive_nonce], [_build_aad] on all inputs *)

Section CodecCases.
Import Struct StructFacts Tbenc CodecFacts.

(** [_build_header] checks the prefix length and nothing else of its
    own: a prefix that is not 4 bytes long is a [ValueError]; with a
    4-byte prefix any chunk_bytes that fits 32 bits gives the 32-byte
    header (no [1024, 67108864] bound here), and any other chunk_bytes is
    the [struct.error] of the packing. *)
Theorem build_header_cases (chunk_bytes : Z) (nonce_prefix : bytes) :
  (length nonce_prefix <> 4%nat
   /\ _build_header chunk_bytes nonce_prefix
      = Raise (ValueError "nonce_prefix must be 4 bytes"))
  \/ (length nonce_prefix = 4%nat /\ ~ (0 <= chunk_bytes < 2 ^ 32)
      /\ _build_header chunk_bytes nonce_prefix = Raise StructError)
  \/ (length nonce_prefix = 4%nat /\ 0 <= chunk_bytes < 2 ^ 32
      /\ _build_header chunk_bytes nonce_prefix
         = Ok (header_layout chunk_bytes nonce_prefix)
      /\ length (header_layout chunk_bytes nonce_prefix) = 32%nat).
Proof.
  destruct (decide (length nonce_prefix = 4%nat)) as [Hnp|Hnp].
  - destruct (decide (0 <= chunk_bytes < 2 ^ 32)) as [Hcb|Hcb].
    + right; right. repeat split; try lia; try assumption.
      * now apply build_header_ok.
      * now apply length_header_layout.
    + right; left. repeat split; try assumption.
      now apply build_header_bad_width.
  - left. split; [assumption|]. now apply build_header_bad_prefix.
Qed.

(** [_derive_nonce] returns the prefix followed by eight bytes that
    read back, big-endian, as the chunk index, for every index in
    [0, 2^64); any other index is a [struct.error]. *)
Theorem derive_nonce_cases (nonce_prefix : bytes) (chunk_index : Z) :
  (0 <= chunk_index < 2 ^ 64
   /\ exists counter : bytes,
        _derive_nonce nonce_prefix chunk_index = Ok (nonce_prefix ++ counter)
        /\ length counter = 8%nat
        /\ be_value counter = chunk_index)
  \/ (~ (0 <= chunk_index < 2 ^ 64)
      /\ _derive_nonce nonce_prefix chunk_index = Raise StructError).
Proof.
  destruct (decide (0 <= chunk_index < 2 ^ 64)) as [Hi|Hi].
  - left. split; [assumption|]. exists (be_bytes 8 chunk_index).
    split; [now apply derive_nonce_ok|].
    split; [apply length_be_bytes|].
    apply be_value_be_bytes. simpl. lia.
  - right. split; [assumption|].
    unfold _derive_nonce. rewrite (pack_raise fmt_Q) by (simpl; lia).
    reflexivity.
Qed.

Lemma derive_nonce_inv (np : bytes) (i : Z) (n : bytes) :
  _derive_nonce np i = Ok n -> 0 <= i < 2 ^ 64 /\ n = nonce_layout np i.
Proof.
  unfold _derive_nonce, pack.
  destruct (in_range fmt_Q i) eqn:E; [|discriminate].
  apply in_range_spec in E. simpl in E.
  intros [= <-]. split; [lia|reflexivity].
Qed.

(** Two chunk indices that give the same nonce under one prefix are
    the same index. *)
Theorem derive_nonce_injective (nonce_prefix : bytes) (i j : Z)
    (nonce : bytes) :
  _derive_nonce nonce_prefix i = Ok nonce ->
  _derive_nonce nonce_prefix j = Ok nonce ->
  i = j.
Proof.
  intros Ei Ej.
  apply derive_nonce_inv in Ei as [Hi ->].
  apply derive_nonce_inv in Ej as [Hj E].
  now apply (nonce_layout_inj nonce_prefix i j).
Qed.

Lemma pack_inv (f : fmt) (x : Z) (bs : bytes) :
  pack f x = Ok bs ->
  0 <= x < 2 ^ (8 * Z.of_nat (size f)) /\ bs = be_bytes (size f) x.
Proof.
  unfold pack. destruct (in_range f x) eqn:E; [|discriminate].
  apply in_range_spec in E. intros [= <-]. now split.
Qed.

Lemma build_aad_inv (magic : bytes) (version algo cb : Z) (np : bytes)
    (i len : Z) (aad : bytes) :
  _build_aad magic version algo cb np i len = Ok aad ->
  (0 <= version < 2 ^ 16 /\ 0 <= algo < 2 ^ 8 /\ 0 <= cb < 2 ^ 32
   /\ 0 <= i < 2 ^ 64 /\ 0 <= len < 2 ^ 32)
  /\ aad = magic ++ be_bytes 2 version ++ be_bytes 1 algo ++ be_bytes 4 cb
                ++ np ++ be_bytes 8 i ++ be_bytes 4 len.
Proof.
  unfold _build_aad.
  destruct (pack fmt_H version) as [b1|] eqn:E1; [|discriminate].
  destruct (pack fmt_B algo) as [b2|] eqn:E2; [|discriminate].
  destruct (pack fmt_I cb) as [b3|] eqn:E3; [|discriminate].
  destruct (pack fmt_Q i) as [b4|] eqn:E4; [|discriminate].
  destruct (pack fmt_I len) as [b5|] eqn:E5; [|discriminate].
  apply pack_inv in E1 as [H1 ->]. apply pack_inv in E2 as [H2 ->].
  apply pack_inv in E3 as [H3 ->]. apply pack_inv in E4 as [H4 ->].
  apply pack_inv in E5 as [H5 ->]. simpl in H1, H2, H3, H4, H5.
  intros [= <-]. split; [lia|].
  simpl size. rewrite <- !app_assoc. reflexivity.
Qed.

(** [_build_aad] returns the seven fields side by side,
    [len(magic) + 2 + 1 + 4 + len(nonce_prefix) + 8 + 4] bytes (31 for
    the 8-byte magic and a 4-byte prefix), when every number fits its
    field, and raises [struct.error] otherwise. *)
Theorem build_aad_cases (magic : bytes) (version algo chunk_bytes : Z)
    (nonce_prefix : bytes) (chunk_index pt_len : Z) :
  let fits := 0 <= version < 2 ^ 16 /\ 0 <= algo < 2 ^ 8
              /\ 0 <= chunk_bytes < 2 ^ 32 /\ 0 <= chunk_index < 2 ^ 64
              /\ 0 <= pt_len < 2 ^ 32 in
  (fits
   /\ exists aad : bytes,
        _build_aad magic version algo chunk_bytes nonce_prefix
          chunk_index pt_len = Ok aad
        /\ aad = magic ++ be_bytes 2 version ++ be_bytes 1 algo
                       ++ be_bytes 4 chunk_bytes ++ nonce_prefix
                       ++ be_bytes 8 chunk_index ++ be_bytes 4 pt_len
        /\ length aad = (length magic + length nonce_prefix + 19)%nat)
  \/ (~ fits
      /\ _build_aad magic version algo chunk_bytes nonce_prefix
           chunk_index pt_len = Raise StructError).
Proof.
  intros fits. destruct (decide fits) as [Hf|Hf].
  - left. split; [assumption|]. destruct Hf as (Hv & Ha & Hcb & Hi & Hl).
    eexists. split; [now apply build_aad_ok|]. split; [reflexivity|].
    rewrite !length_app, !length_be_bytes. lia.
  - right. split; [assumption|].
    destruct (_build_aad magic version algo chunk_bytes nonce_prefix
                chunk_index pt_len) as [aad|e] eqn:E.
    + apply build_aad_inv in E as [Hfits _]. contradiction.
    + revert E. unfold _build_aad, pack.
      repeat (destruct (in_range _ _); [|intros [= <-]; reflexivity]).
      discriminate.
Qed.

(** The associated data fixes what it was built from: two calls with
    the same magic and prefixes of the same length that return the same
    bytes were given the same chunk size, prefix, index and length. *)
Theorem build_aad_injective (magic : bytes) (version algo : Z)
    (cb1 cb2 : Z) (np1 np2 : bytes) (i1 i2 len1 len2 : Z) (aad : bytes) :
  length np1 = length np2 ->
  _build_aad magic version algo cb1 np1 i1 len1 = Ok aad ->
  _build_aad magic version algo cb2 np2 i2 len2 = Ok aad ->
  cb1 = cb2 /\ np1 = np2 /\ i1 = i2 /\ len1 = len2.
Proof.
  intros Hnp E1 E2.
  apply build_aad_inv in E1 as [(_ & _ & Hc1 & Hi1 & Hl1) ->].
  apply build_aad_inv in E2 as [(_ & _ & Hc2 & Hi2 & Hl2) E].
  apply app_inv_head in E. apply app_inv_head in E. apply app_inv_head in E.
  apply app_inj_1 in E as [Ecb E]; [|now rewrite !length_be_bytes].
  apply app_inj_1 in E as [Enp E]; [|assumption].
  apply app_inj_1 in E as [Ei El]; [|now rewrite !length_be_bytes].
  repeat split.
  - apply (be_bytes_inj 4); simpl; auto; lia.
  - assumption.
  - apply (be_bytes_inj 8); simpl; auto; lia.
  - apply (be_bytes_inj 4); simpl; auto; lia.
Qed.

End CodecCases.

(** ** [encrypt_file]: nonces, digest, failures, what it leaves alone *)

Definition is_lower_hex (c : ascii) : bool :=
  bool_decide (c ∈ list_ascii_of_string "0123456789abcdef").

Fixpoint string_forallb (p : ascii -> bool) (s : string) : bool :=
  match s with
  | EmptyString => true
  | String c r => p c && string_forallb p r
  end.

Lemma string_forallb_app (p : ascii -> bool) (s t : string) :
  string_forallb p (s ++ t) = string_forallb p s && string_forallb p t.
Proof.
  induction s as [|c s IH]; [reflexivity|].
  simpl. rewrite IH. now rewrite andb_assoc.
Qed.

Lemma hexlify_cons (b : byte) (bs : bytes) :
  hexlify (b :: bs)
  = String (hex_digit (Z.shiftr (Struct.Z_of_byte b) 4))
      (String (hex_digit (Z.land (Struct.Z_of_byte b) 15)) (hexlify bs)).
Proof. reflexivity. Qed.

Lemma hexlify_lower (bs : bytes) :
  string_forallb is_lower_hex (hexlify bs) = true
  /\ String.length (hexlify bs) = (2 * length bs)%nat.
Proof.
  induction bs as [|b bs [IH1 IH2]]; [split; reflexivity|].
  rewrite hexlify_cons. cbn [string_forallb String.length length].
  rewrite IH1, IH2. split; [|lia].
  rewrite andb_true_r. destruct b; reflexivity.
Qed.

Section EncryptFileMore.
Import Struct StructFacts Tbenc CodecFacts.

Context `{AEAD} `{SHA256}.

Lemma encrypt_nonces_events_from out key cb np (cs : list bytes) :
  forall i : Z,
    encrypt_nonces (events_from out key cb np i cs)
    = map (fun k => nonce_layout np (i + Z.of_nat k)) (seq 0 (length cs)).
Proof.
  induction cs as [|c cs IH]; intros i; [reflexivity|].
  cbn [events_from length seq map]. unfold encrypt_nonces in *.
  cbn [omap]. cbn [option_bind mbind]. simpl.
  rewrite Z.add_0_r. f_equal.
  rewrite IH, <- seq_shift, map_map.
  apply map_ext. intros k. f_equal. lia.
Qed.

Lemma NoDup_nonces (np : bytes) (i : Z) (n : nat) :
  0 <= i -> i + Z.of_nat n <= 2 ^ 64 ->
  NoDup (map (fun k => nonce_layout np (i + Z.of_nat k)) (seq 0 n)).
Proof.
  intros Hi Hn. apply NoDup_fmap_2_strong; [|apply NoDup_seq].
  intros a b Ha Hb E.
  apply elem_of_seq in Ha, Hb.
  apply nonce_layout_inj in E; lia.
Qed.

(** Within one call of [encrypt_file] no nonce is handed to
    [aesgcm.encrypt] twice: the call makes one encryption per record,
    each under a 12-byte nonce, and the nonces are pairwise different. *)
Theorem encrypt_file_nonces_unique (w : World)
    (input_path output_path : string) (key : bytes) (chunk_bytes : Z)
    (plaintext : bytes) :
  length key = 32%nat ->
  1024 <= chunk_bytes <= 67108864 ->
  fs w !! input_path = Some plaintext ->
  input_path <> output_path ->
  Z.of_nat (length plaintext) < 2 ^ 64 ->
  exists (r : string * Z) (w' : World) (evs : list io_event),
    encrypt_file input_path output_path key chunk_bytes w = (Ok r, w')
    /\ log w' = log w ++ evs
    /\ NoDup (encrypt_nonces evs)
    /\ Z.of_nat (length (encrypt_nonces evs))
       = ceil_div (Z.of_nat (length plaintext)) chunk_bytes
    /\ Forall (fun nonce => length nonce = 12%nat) (encrypt_nonces evs).
Proof.
  intros Hkey Hcb Hin Hneq Hsize.
  eexists _, _, _.
  split; [apply (encrypt_file_spec w input_path output_path key
                   chunk_bytes plaintext); assumption|].
  cbn [log]. split; [reflexivity|].
  match goal with
  | |- context [encrypt_nonces (?pre ++ ?evs)] =>
      change (encrypt_nonces (pre ++ evs)) with (encrypt_nonces evs)
  end.
  rewrite encrypt_nonces_events_from.
  pose proof (chunks_read_length chunk_bytes plaintext ltac:(lia)) as HN.
  pose proof (ceil_div_bounds (Z.of_nat (length plaintext)) chunk_bytes
                ltac:(lia) ltac:(lia)) as [HB _].
  split; [|split].
  - apply NoDup_nonces; [lia|].
    destruct (Z.eqb_spec (Z.of_nat (length plaintext)) 0); nia.
  - rewrite length_map, length_seq. exact HN.
  - apply Forall_forall. intros n Hn. apply list_elem_of_fmap_1 in Hn.
    destruct Hn as (k & -> & _).
    apply length_nonce_layout, length_drawn_prefix.
Qed.

(** The digest [encrypt_file] returns is the lowercase hex SHA-256 of
    exactly the bytes it left in the output file, header included: 64
    characters, all in 0-9a-f; the second component is the length of the
    input file. *)
Theorem encrypt_file_digest (w : World) (input_path output_path : string)
    (key : bytes) (chunk_bytes : Z) (plaintext : bytes) :
  length key = 32%nat ->
  1024 <= chunk_bytes <= 67108864 ->
  fs w !! input_path = Some plaintext ->
  input_path <> output_path ->
  Z.of_nat (length plaintext) < 2 ^ 64 ->
  exists (w' : World) (content : bytes),
    encrypt_file input_path output_path key chunk_bytes w
    = (Ok (hexlify (sha256 content), Z.of_nat (length plaintext)), w')
    /\ fs w' !! output_path = Some content
    /\ String.length (hexlify (sha256 content)) = 64%nat
    /\ string_forallb is_lower_hex (hexlify (sha256 content)) = true.
Proof.
  intros Hkey Hcb Hin Hneq Hsize.
  eexists _, (ciphertext_of w key chunk_bytes plaintext).
  split; [apply (encrypt_file_spec w input_path output_path key
                   chunk_bytes plaintext); assumption|].
  cbn [fs]. split; [apply lookup_insert_eq|].
  destruct (hexlify_lower (sha256 (ciphertext_of w key chunk_bytes plaintext)))
    as [Hlow Hlen].
  rewrite sha256_length in Hlen. split; assumption.
Qed.

(** [encrypt_file] changes one file only: every path other than the
    output path holds afterwards what it held before, the input file
    included. *)
Theorem encrypt_file_frame (w : World) (input_path output_path : string)
    (key : bytes) (chunk_bytes : Z) (plaintext : bytes) (other : string) :
  length key = 32%nat ->
  1024 <= chunk_bytes <= 67108864 ->
  fs w !! input_path = Some plaintext ->
  input_path <> output_path ->
  Z.of_nat (length plaintext) < 2 ^ 64 ->
  other <> output_path ->
  fs (snd (encrypt_file input_path output_path key chunk_bytes w)) !! other
  = fs w !! other.
Proof.
  intros Hkey Hcb Hin Hneq Hsize Hother.
  rewrite (encrypt_file_spec w input_path output_path key chunk_bytes
             plaintext) by assumption.
  cbn [snd fs]. now apply lookup_insert_ne.
Qed.

(** Arguments are checked before anything happens: a key that is not
    32 bytes long, or a chunk_bytes outside [1024, 67108864], is a
    [ValueError] that leaves the world as it was: no file is opened or
    created and no random bytes are drawn.  The key is checked first. *)
Theorem encrypt_file_rejects_arguments (w : World)
    (input_path output_path : string) (key : bytes) (chunk_bytes : Z) :
  length key <> 32%nat \/ chunk_bytes < 1024 \/ 67108864 < chunk_bytes ->
  encrypt_file input_path output_path key chunk_bytes w
  = (Raise (ValueError
              (if decide (length key = 32%nat)
               then "chunk_bytes must be between 1KB and 64MB"
               else "Key must be 32 bytes for AES-256")), w).
Proof.
  intros Hbad. unfold encrypt_file.
  destruct (Nat.eqb_spec (length key) 32) as [Hk|Hk].
  - rewrite decide_True by assumption. cbn [negb].
    destruct (Z.ltb_spec chunk_bytes 1024);
      destruct (Z.gtb_spec chunk_bytes (64 * 1024 * 1024));
      try reflexivity; lia.
  - rewrite decide_False by assumption. reflexivity.
Qed.

(** With valid arguments and no file at the input path, [encrypt_file]
    raises [FileNotFoundError] and no output file is created or
    truncated: the files are as before, and the only trace of the call
    is the four random bytes drawn for the prefix. *)
Theorem encrypt_file_missing_input (w : World)
    (input_path output_path : string) (key : bytes) (chunk_bytes : Z) :
  length key = 32%nat ->
  1024 <= chunk_bytes <= 67108864 ->
  fs w !! input_path = None ->
  encrypt_file input_path output_path key chunk_bytes w
  = (Raise (FileNotFoundError input_path),
     mkWorld (fs w) (log w) (entropy w) (entropy_pos w + 4)).
Proof.
  intros Hkey Hcb Hin. unfold encrypt_file. rewrite Hkey. cbn [Nat.eqb negb].
  destruct (Z.ltb_spec chunk_bytes 1024) as [?|_]; [lia|].
  destruct (Z.gtb_spec chunk_bytes (64 * 1024 * 1024)) as [?|_]; [lia|].
  cbn [orb]. unfold os_urandom, open_rb.
  unfold bind at 1. unfold bind at 1. cbn [fs]. rewrite Hin. reflexivity.
Qed.

(** Every record can be opened again: the file [encrypt_file] writes is
    the header followed by records whose plaintexts, put end to end, are
    the input file, and [aesgcm.decrypt] with the same key, the nonce
    [prefix || index] and the associated data of that index and length
    returns each record's plaintext. *)
Theorem encrypt_file_records_open (w : World)
    (input_path output_path : string) (key : bytes) (chunk_bytes : Z)
    (plaintext : bytes) :
  length key = 32%nat ->
  1024 <= chunk_bytes <= 67108864 ->
  fs w !! input_path = Some plaintext ->
  input_path <> output_path ->
  Z.of_nat (length plaintext) < 2 ^ 64 ->
  exists (r : string * Z) (w' : World) (header : bytes)
         (recs : list record) (pts : list bytes),
    encrypt_file input_path output_path key chunk_bytes w = (Ok r, w')
    /\ fs w' !! output_path
       = Some (header ++ concat (map encode_record recs))
    /\ _build_header chunk_bytes (drawn_prefix w) = Ok header
    /\ concat pts = plaintext
    /\ length pts = length recs
    /\ forall (i : nat) (rec : record) (pt : bytes),
         recs !! i = Some rec -> pts !! i = Some pt ->
         pt_len rec = Z.of_nat (length pt)
         /\ exists nonce aad : bytes,
              _derive_nonce (drawn_prefix w) (Z.of_nat i) = Ok nonce
              /\ _build_aad MAGIC VERSION ALGO_AES_GCM_CHUNKED chunk_bytes
                   (drawn_prefix w) (Z.of_nat i) (pt_len rec) = Ok aad
              /\ aesgcm_decrypt key nonce (ct_and_tag rec) aad = Some pt.
Proof.
  intros Hkey Hcb Hin Hneq Hsize.
  pose proof (length_drawn_prefix w) as Hnp.
  set (np := drawn_prefix w) in *.
  set (cs := chunks_read chunk_bytes plaintext).
  eexists _, _, (header_layout chunk_bytes np),
    (record_list key chunk_bytes np 0 cs), cs.
  split; [apply (encrypt_file_spec w input_path output_path key
                   chunk_bytes plaintext); assumption|].
  cbn [fs]. rewrite lookup_insert_eq.
  split; [unfold ciphertext_of; now rewrite records_from_record_list|].
  split; [apply build_header_ok; [assumption|lia]|].
  split; [apply chunks_read_concat; lia|].
  split; [now rewrite length_record_list|].
  intros i rec pt Hrec Hpt.
  apply record_list_lookup in Hrec as (c & Hc & ->).
  assert (c = pt) as -> by congruence. cbn [pt_len ct_and_tag].
  split; [reflexivity|].
  pose proof (lookup_lt_Some _ _ _ Hpt) as Hi.
  pose proof (chunks_read_length chunk_bytes plaintext ltac:(lia)) as HN.
  pose proof (ceil_div_bounds (Z.of_nat (length plaintext)) chunk_bytes
                ltac:(lia) ltac:(lia)) as [HB _].
  fold cs in HN.
  assert (Hidx : 0 <= Z.of_nat i < 2 ^ 64).
  { destruct (Z.eqb_spec (Z.of_nat (length plaintext)) 0); nia. }
  apply chunks_read_lookup in Hpt as [_ Hlen]; [|lia].
  exists (nonce_layout np (Z.of_nat i)),
    (aad_layout chunk_bytes np (Z.of_nat i) (Z.of_nat (length pt))).
  split; [now apply derive_nonce_ok|].
  split; [unfold aad_layout; apply build_aad_ok;
          unfold VERSION, ALGO_AES_GCM_CHUNKED; lia|].
  unfold sealed. rewrite Z.add_0_l.
  apply aesgcm_decrypt_encrypt; [assumption|].
  now apply length_nonce_layout.
Qed.

End EncryptFileMore.

(** ** Paths of the two artifacts *)

Section PathFacts.
Import Tbenc.
Local Open Scope string_scope.










End PathFacts.

(** ** What a run may touch, whatever its outcome *)

(** [w'] comes from [w] by changing files at [writable] paths only and
    by appending [allowed] events to the log; the random source itself is
    the same. *)
Definition touches_only (writable : string -> Prop)
    (allowed : io_event -> Prop) (w w' : World) : Prop :=
  (forall p, ~ writable p -> fs w' !! p = fs w !! p)
  /\ (exists evs, log w' = log w ++ evs /\ Forall allowed evs)
  /\ entropy w' = entropy w.

Section TouchFacts.

Variable writable : string -> Prop.
Variable allowed : io_event -> Prop.

Lemma touches_refl (w : World) : touches_only writable allowed w w.
Proof.
  split; [trivial|]. split; [|reflexivity].
  exists []. split; [now rewrite app_nil_r|constructor].
Qed.

Lemma touches_trans (w1 w2 w3 : World) :
  touches_only writable allowed w1 w2 ->
  touches_only writable allowed w2 w3 ->
  touches_only writable allowed w1 w3.
Proof.
  intros (F1 & (e1 & L1 & A1) & E1) (F2 & (e2 & L2 & A2) & E2).
  split; [|split].
  - intros p Hp. now rewrite F2, F1.
  - exists (e1 ++ e2). split; [now rewrite L2, L1, app_assoc|].
    now apply Forall_app.
  - congruence.
Qed.

Lemma touches_bind {A B} (m : M A) (k : A -> M B) (w : World) :
  touches_only writable allowed w (snd (m w)) ->
  (forall a w1, touches_only writable allowed w1 (snd (k a w1))) ->
  touches_only writable allowed w (snd (bind m k w)).
Proof.
  intros Hm Hk. unfold bind. destruct (m w) as [[a|e] w1]; simpl in *.
  - eapply touches_trans; [exact Hm|apply Hk].
  - exact Hm.
Qed.

Lemma touches_pure {A} (r : result A) (w : World) :
  touches_only writable allowed w (snd (lift r w)).
Proof. apply touches_refl. Qed.

Lemma touches_emit (e : io_event) (w : World) :
  allowed e -> touches_only writable allowed w (snd (emit e w)).
Proof.
  intros He. split; [trivial|]. split; [|reflexivity].
  exists [e]. split; [reflexivity|]. now constructor.
Qed.

Lemma touches_urandom (n : nat) (w : World) :
  touches_only writable allowed w (snd (os_urandom n w)).
Proof.
  split; [trivial|]. split; [|reflexivity].
  exists []. split; [simpl; now rewrite app_nil_r|constructor].
Qed.

Lemma touches_open_rb (p : string) (w : World) :
  allowed (EvOpenRead p) ->
  touches_only writable allowed w (snd (open_rb p w)).
Proof.
  intros He. unfold open_rb. destruct (fs w !! p); [|apply touches_refl].
  split; [trivial|]. split; [|reflexivity].
  exists [EvOpenRead p]. split; [reflexivity|]. now constructor.
Qed.

Lemma touches_open_w (p : string) (w : World) :
  writable p -> allowed (EvOpenWrite p) ->
  touches_only writable allowed w (snd (open_w p w)).
Proof.
  intros Hp He. split; [|split; [|reflexivity]].
  - intros q Hq. simpl. apply lookup_insert_ne. congruence.
  - exists [EvOpenWrite p]. split; [reflexivity|]. now constructor.
Qed.

Lemma touches_write (p : string) (data : bytes) (w : World) :
  writable p -> allowed (EvWrite p data) ->
  touches_only writable allowed w (snd (file_write p data w)).
Proof.
  intros Hp He. split; [|split; [|reflexivity]].
  - intros q Hq. simpl. apply lookup_insert_ne. congruence.
  - exists [EvWrite p data]. split; [reflexivity|]. now constructor.
Qed.

End TouchFacts.

(** The events a call of [encrypt_file] can log. *)
Definition encrypt_file_event (input_path output_path : string)
    (e : io_event) : Prop :=
  match e with
  | EvOpenRead p => p = input_path
  | EvOpenWrite p => p = output_path
  | EvWrite p _ => p = output_path
  | EvEncrypt _ _ => True
  | EvMkdir _ | EvRename _ _ | EvRemove _ => False
  end.

Section TouchEncoder.
Import Tbenc.

Context `{AEAD} `{SHA256}.

Lemma touches_encrypt_loop (input_path output_path : string) (key : bytes)
    (chunk_bytes : Z) (nonce_prefix : bytes) (fuel : nat) :
  forall (st : loop_state) (w : World),
    touches_only (fun p => p = output_path)
      (encrypt_file_event input_path output_path) w
      (snd (encrypt_loop fuel output_path key chunk_bytes nonce_prefix st w)).
Proof.
  induction fuel as [|fuel IH]; intros st w; [apply touches_refl|].
  cbn [encrypt_loop].
  destruct (file_read chunk_bytes (st_fin st)) as [chunk rest].
  destruct chunk as [|b chunk]; [apply touches_refl|].
  apply touches_bind; [apply touches_pure|]. intros nonce w1.
  apply touches_bind; [apply touches_pure|]. intros aad w2.
  apply touches_bind.
  { unfold aesgcm_encrypt_call.
    apply touches_bind; [now apply touches_emit|].
    intros _ w3. apply touches_refl. }
  intros ct w3.
  apply touches_bind; [apply touches_pure|]. intros hdr w4.
  apply touches_bind; [now apply touches_write|]. intros _ w5.
  apply touches_bind; [now apply touches_write|]. intros _ w6.
  apply IH.
Qed.

Lemma encrypt_file_touches_any (input_path output_path : string)
    (key : bytes) (chunk_bytes : Z) (w : World) :
  touches_only (fun p => p = output_path)
    (encrypt_file_event input_path output_path) w
    (snd (encrypt_file input_path output_path key chunk_bytes w)).
Proof.
  unfold encrypt_file.
  destruct (negb _); [apply touches_refl|].
  destruct (_ || _); [apply touches_refl|].
  apply touches_bind; [apply touches_urandom|]. intros np w1.
  apply touches_bind; [now apply touches_open_rb|]. intros content w2.
  apply touches_bind; [now apply touches_open_w|]. intros _ w3.
  apply touches_bind; [apply touches_pure|]. intros header w4.
  apply touches_bind; [now apply touches_write|]. intros _ w5.
  apply touches_bind; [apply touches_encrypt_loop|]. intros st w6.
  apply touches_refl.
Qed.

(** Whatever its arguments and whatever its outcome, [encrypt_file]
    writes no file but the one at the output path, opens no file but its
    input for reading and its output for writing, and removes or renames
    nothing: an output file left by a call that raised stays as it was
    written. *)
Theorem encrypt_file_touches (input_path output_path : string)
    (key : bytes) (chunk_bytes : Z) (w : World) :
  touches_only (fun p => p = output_path)
    (encrypt_file_event input_path output_path) w
    (snd (encrypt_file input_path output_path key chunk_bytes w)).
Proof. apply encrypt_file_touches_any. Qed.

End TouchEncoder.

(** ** [write_manifest] and [encrypt_and_generate_manifest] *)

Section ManifestFacts.
Import Struct StructFacts Tbenc CodecFacts.

Context `{AEAD} `{SHA256}.
Variable json_dumps : json -> bytes.



(** The events a call of [encrypt_and_generate_manifest] can log. *)
Definition generate_event (input_path output_dir encrypted_path
    manifest_path : string) (e : io_event) : Prop :=
  match e with
  | EvMkdir p => p = output_dir
  | EvOpenRead p => p = input_path
  | EvOpenWrite p | EvWrite p _ => p = encrypted_path \/ p = manifest_path
  | EvEncrypt _ _ => True
  | EvRename _ _ | EvRemove _ => False
  end.

Lemma touches_weaken (wr1 wr2 : string -> Prop)
    (al1 al2 : io_event -> Prop) (w w' : World) :
  (forall p, wr1 p -> wr2 p) -> (forall e, al1 e -> al2 e) ->
  touches_only wr1 al1 w w' -> touches_only wr2 al2 w w'.
Proof.
  intros Hw Ha (F & (evs & L & A) & E). split; [|split; [|exact E]].
  - intros p Hp. apply F. intros Hp'. apply Hp, Hw, Hp'.
  - exists evs. split; [exact L|].
    eapply Forall_impl; [exact A|]. exact Ha.
Qed.

(** Whatever its outcome, [encrypt_and_generate_manifest] changes no
    file but the ciphertext file and the manifest, both under their
    final names, and renames or removes nothing. *)
Theorem generate_touches (input_path output_dir asset_id : string)
    (chunk_bytes : Z) (output_filename : string) (w : World) :
  let encrypted_path := path_join output_dir output_filename in
  let manifest_path :=
    path_join output_dir
      (rsplit_dot_head output_filename ++ ".manifest.json")%string in
  touches_only (fun p => p = encrypted_path \/ p = manifest_path)
    (generate_event input_path output_dir encrypted_path manifest_path) w
    (snd (encrypt_and_generate_manifest json_dumps input_path output_dir
            asset_id chunk_bytes output_filename w)).
Proof.
  intros encrypted_path manifest_path.
  unfold encrypt_and_generate_manifest.
  apply touches_bind; [now apply touches_emit|]. intros _ w1.
  apply touches_bind; [apply touches_urandom|]. intros key w2.
  apply touches_bind.
  { eapply touches_weaken; [| |apply encrypt_file_touches_any].
    - intros p ->. now left.
    - intros [] He; simpl in *; try contradiction; auto. }
  intros [sha size] w3.
  apply touches_bind; [|intros _ w4; apply touches_refl].
  unfold write_manifest.
  apply touches_bind; [apply touches_open_w; simpl; auto|]. intros _ w4.
  apply touches_write; simpl; auto.
Qed.



End ManifestFacts.

(** ** [common/validation.py] *)

Module Validation.
Local Open Scope string_scope.

Definition in_range_char (lo hi c : ascii) : bool :=
  (nat_of_ascii lo <=? nat_of_ascii c)%nat
  && (nat_of_ascii c <=? nat_of_ascii hi)%nat.

(** The character class [[0-9a-fA-F]]. *)
Definition is_hex_char (c : ascii) : bool :=
  in_range_char "0" "9" c || in_range_char "a" "f" c
  || in_range_char "A" "F" c.

(** The character class [[a-zA-Z0-9_-]]. *)
Definition is_asset_char (c : ascii) : bool :=
  in_range_char "a" "z" c || in_range_char "A" "Z" c
  || in_range_char "0" "9" c || (c =? "_")%char || (c =? "-")%char.

Definition LF : ascii := ascii_of_nat 10.

(** What is left to match after the first character of [[cls]+$]: more
    characters of the class, then the end of the string or, as [$] has
    it in Python, a line feed that is the last character. *)
Fixpoint class_star_dollar (cls : ascii -> bool) (s : string) : bool :=
  match s with
  | EmptyString => true
  | String c r =>
      if cls c then class_star_dollar cls r
      else (c =? LF)%char && (r =? EmptyString)
  end.

(** [re.match(r"^[cls]+$", s)] is not [None], for a class without the
    line feed. *)
Definition re_match_class_plus (cls : ascii -> bool) (s : string) : bool :=
  match s with
  | EmptyString => false
  | String c r => cls c && class_star_dollar cls r
  end.

(** [validate_asset_id]; [Ok tt] is a normal return.  Of a
    [ValidationError] the message is kept and the details are not. *)
Definition validate_asset_id (asset_id : string) : result unit :=
  if (asset_id =? EmptyString) then
    Raise (ValidationError "Asset ID cannot be empty")
  else if negb (re_match_class_plus is_asset_char asset_id) then
    Raise (ValidationError
      "Asset ID must contain only alphanumeric characters, hyphens, and underscores")
  else if (100 <? String.length asset_id)%nat then
    Raise (ValidationError "Asset ID must be 100 characters or less")
  else Ok tt.

Definition recommended_sizes : list Z :=
  [1 * 1024 * 1024; 4 * 1024 * 1024; 8 * 1024 * 1024; 16 * 1024 * 1024;
   32 * 1024 * 1024; 64 * 1024 * 1024]%Z.

(** [validate_chunk_size]; the value returned here tells whether the
    warning about a non-standard size was printed. *)
Definition validate_chunk_size (chunk_bytes : Z) : result bool :=
  let min_bytes := 1024%Z in
  let max_bytes := (64 * 1024 * 1024)%Z in
  if (chunk_bytes <? min_bytes)%Z || (chunk_bytes >? max_bytes)%Z then
    Raise (ValidationError "Chunk size must be between 1KB and 64MB")
  else if bool_decide (chunk_bytes ∈ recommended_sizes) then Ok false
  else Ok true.

Fixpoint starts_with (prefix s : string) : bool :=
  match prefix, s with
  | EmptyString, _ => true
  | String a p, String b r => (a =? b)%char && starts_with p r
  | String _ _, EmptyString => false
  end.

(** [validate_url] *)
Definition validate_url (url : string) (require_https : bool) : result unit :=
  if (url =? EmptyString) then
    Raise (ValidationError "URL cannot be empty")
  else if negb (starts_with "http://" url || starts_with "https://" url) then
    Raise (ValidationError "URL must start with http:// or https://")
  else if require_https && negb (starts_with "https://" url) then
    Raise (ValidationError "URL must use HTTPS for security")
  else Ok tt.

(** [validate_hex_string]; [expected_bytes] is [None] or an [int]. *)
Definition validate_hex_string (hex_string : string)
    (expected_bytes : option Z) : result unit :=
  if (hex_string =? EmptyString) then
    Raise (ValidationError "Hex string cannot be empty")
  else if negb (re_match_class_plus is_hex_char hex_string) then
    Raise (ValidationError
      "Invalid hexadecimal string - must contain only 0-9, a-f, A-F")
  else
    match expected_bytes with
    | Some expected_bytes =>
        let expected_chars := (expected_bytes * 2)%Z in
        if negb (Z.of_nat (String.length hex_string) =? expected_chars)%Z then
          Raise (ValidationError
                   ("Hex string must be " ++ pretty expected_chars
                    ++ " characters for " ++ pretty expected_bytes
                    ++ " bytes"))
        else Ok tt
    | None => Ok tt
    end.

End Validation.

Module ValidationFacts.
Import Validation.
Local Open Scope string_scope.

Definition LFs : string := String LF EmptyString.

Lemma app_cons (c : ascii) (a b : string) :
  String c a ++ b = String c (a ++ b).
Proof. reflexivity. Qed.

Lemma app_empty_l (b : string) : EmptyString ++ b = b.
Proof. reflexivity. Qed.

Lemma string_length_app' (a b : string) :
  String.length (a ++ b) = (String.length a + String.length b)%nat.
Proof.
  induction a as [|c a IH]; [reflexivity|].
  rewrite app_cons. simpl. now rewrite IH.
Qed.

Section ClassMatch.

Variable cls : ascii -> bool.
Hypothesis cls_LF : cls LF = false.

Lemma class_star_dollar_spec (s : string) :
  class_star_dollar cls s = true
  <-> exists h, string_forallb cls h = true /\ (s = h \/ s = h ++ LFs).
Proof.
  induction s as [|c r IH].
  - split; [|reflexivity]. intros _. exists EmptyString. auto.
  - cbn [class_star_dollar]. destruct (cls c) eqn:Hc.
    + rewrite IH. split.
      * intros (h & Hh & Hs). exists (String c h). split.
        { simpl. now rewrite Hc, Hh. }
        { rewrite app_cons. destruct Hs as [->| ->]; auto. }
      * intros (h & Hh & Hs). destruct h as [|c' h].
        { rewrite app_empty_l in Hs. destruct Hs as [Hs|Hs];
            [discriminate|].
          injection Hs as -> _. congruence. }
        { rewrite app_cons in Hs. simpl in Hh.
          apply andb_true_iff in Hh as [_ Hh]. exists h. split; [exact Hh|].
          destruct Hs as [[= _ ->]|[= _ ->]]; auto. }
    + rewrite andb_true_iff. split.
      * intros [Hlf Hr]. apply Ascii.eqb_eq in Hlf. apply String.eqb_eq in Hr.
        subst. exists EmptyString. split; [reflexivity|]. right. reflexivity.
      * intros (h & Hh & Hs). destruct h as [|c' h].
        { rewrite app_empty_l in Hs. destruct Hs as [Hs|Hs];
            [discriminate|].
          injection Hs as -> ->. split; [apply Ascii.eqb_refl|reflexivity]. }
        { rewrite app_cons in Hs. simpl in Hh.
          apply andb_true_iff in Hh as [Hc' _].
          destruct Hs as [[= -> _]|[= -> _]]; congruence. }
Qed.

(** [re.match(r"^[cls]+$", s)] succeeds on the strings made of one or
    more characters of the class, and on those followed by one final
    line feed, and on no other. *)
Lemma re_match_class_plus_spec (s : string) :
  re_match_class_plus cls s = true
  <-> exists h, h <> EmptyString /\ string_forallb cls h = true
                /\ (s = h \/ s = h ++ LFs).
Proof.
  destruct s as [|c r].
  - split; [discriminate|]. intros (h & Hne & _ & Hs).
    destruct h; [contradiction|]. rewrite app_cons in Hs.
    destruct Hs; discriminate.
  - cbn [re_match_class_plus]. rewrite andb_true_iff, class_star_dollar_spec.
    split.
    + intros (Hc & h & Hh & Hs). exists (String c h).
      split; [discriminate|]. split; [simpl; now rewrite Hc, Hh|].
      rewrite app_cons. destruct Hs as [->| ->]; auto.
    + intros (h & Hne & Hh & Hs). destruct h as [|c' h]; [contradiction|].
      rewrite app_cons in Hs. simpl in Hh.
      apply andb_true_iff in Hh as [Hc' Hh].
      destruct Hs as [[= -> ->]|[= -> ->]]; (split; [exact Hc'|]);
        exists h; auto.
Qed.

End ClassMatch.

Lemma eqb_empty_false (s : string) :
  s <> EmptyString -> (s =? EmptyString) = false.
Proof. intros Hs. now apply String.eqb_neq. Qed.

(** [validate_hex_string(key_hex, expected_bytes=32)], the check made
    on a decryption key, accepts exactly the strings of 64 characters
    that are hex digits of either case, a-f as well as A-F, all 64 of
    them or the first 63 followed by a line feed; every other string is
    a [ValidationError]. *)
Theorem validate_key_hex_accepts (key_hex : string) :
  validate_hex_string key_hex (Some 32%Z) = Ok tt
  <-> String.length key_hex = 64%nat
      /\ exists h, string_forallb is_hex_char h = true
                   /\ (key_hex = h \/ key_hex = h ++ LFs).
Proof.
  unfold validate_hex_string.
  destruct (String.eqb_spec key_hex EmptyString) as [->|Hne].
  { split; [discriminate|]. intros [Hlen _]. discriminate. }
  destruct (re_match_class_plus is_hex_char key_hex) eqn:Hm; cbn [negb].
  - apply re_match_class_plus_spec in Hm as (h & _ & Hh & Hs);
      [|reflexivity].
    change (32 * 2)%Z with 64%Z.
    destruct (Z.eqb_spec (Z.of_nat (String.length key_hex)) 64) as [Hl|Hl];
      cbn [negb].
    + split; [|reflexivity]. intros _. split; [lia|]. exists h. auto.
    + split; [discriminate|]. intros [Hlen _]. lia.
  - split; [discriminate|]. intros (Hlen & h & Hh & Hs).
    assert (re_match_class_plus is_hex_char key_hex = true); [|congruence].
    apply re_match_class_plus_spec; [reflexivity|].
    exists h. split; [|auto].
    intros ->. rewrite app_empty_l in Hs. destruct Hs as [->| ->];
      discriminate.
Qed.

(** Whatever the arguments, [validate_hex_string] returns normally or
    raises a [ValidationError], and it never accepts the empty string or
    a string holding a character that is neither a hex digit nor a final
    line feed. *)
Theorem validate_hex_string_rejects (hex_string : string)
    (expected_bytes : option Z) :
  (validate_hex_string hex_string expected_bytes = Ok tt
   \/ exists msg, validate_hex_string hex_string expected_bytes
                  = Raise (ValidationError msg))
  /\ (validate_hex_string hex_string expected_bytes = Ok tt ->
      hex_string <> EmptyString
      /\ exists h, string_forallb is_hex_char h = true
                   /\ (hex_string = h \/ hex_string = h ++ LFs)).
Proof.
  unfold validate_hex_string.
  destruct (String.eqb_spec hex_string EmptyString) as [->|Hne].
  { split; [right; eauto|discriminate]. }
  destruct (re_match_class_plus is_hex_char hex_string) eqn:Hm; cbn [negb].
  - apply re_match_class_plus_spec in Hm as (h & _ & Hh & Hs);
      [|reflexivity].
    split.
    + destruct expected_bytes as [n|]; [|now left].
      destruct (negb _); [right; eauto|now left].
    + intros _. split; [assumption|]. exists h. auto.
  - split; [right; eauto|discriminate].
Qed.

(** [validate_asset_id] accepts exactly the strings of at most 100
    characters that are one or more letters, digits, [_] and [-],
    optionally ended by one line feed (which counts as one of the
    100). *)
Theorem validate_asset_id_accepts (asset_id : string) :
  validate_asset_id asset_id = Ok tt
  <-> (String.length asset_id <= 100)%nat
      /\ exists h, h <> EmptyString
                   /\ string_forallb is_asset_char h = true
                   /\ (asset_id = h \/ asset_id = h ++ LFs).
Proof.
  unfold validate_asset_id.
  destruct (String.eqb_spec asset_id EmptyString) as [->|Hne].
  { split; [discriminate|]. intros (_ & h & Hh & _ & Hs).
    destruct h; [contradiction|]. rewrite app_cons in Hs.
    destruct Hs; discriminate. }
  destruct (re_match_class_plus is_asset_char asset_id) eqn:Hm; cbn [negb].
  - apply re_match_class_plus_spec in Hm; [|reflexivity].
    destruct (Nat.ltb_spec 100 (String.length asset_id)) as [Hl|Hl].
    + split; [discriminate|]. intros [Hlen _]. lia.
    + split; [|reflexivity]. intros _. split; [lia|exact Hm].
  - split; [discriminate|]. intros (Hlen & Hex).
    apply re_match_class_plus_spec in Hex; [congruence|reflexivity].
Qed.

(** [validate_chunk_size] raises exactly outside [1024, 67108864], and
    inside the range it warns exactly when the size is not one of 1, 4,
    8, 16, 32 or 64 MiB. *)
Theorem validate_chunk_size_cases (chunk_bytes : Z) :
  ((chunk_bytes < 1024 \/ 67108864 < chunk_bytes)%Z
   /\ validate_chunk_size chunk_bytes
      = Raise (ValidationError "Chunk size must be between 1KB and 64MB"))
  \/ ((1024 <= chunk_bytes <= 67108864)%Z
      /\ validate_chunk_size chunk_bytes
         = Ok (negb (bool_decide
                       (chunk_bytes ∈ [1048576; 4194304; 8388608; 16777216;
                                       33554432; 67108864]%Z)))).
Proof.
  unfold validate_chunk_size.
  destruct (Z.ltb_spec chunk_bytes 1024);
    destruct (Z.gtb_spec chunk_bytes (64 * 1024 * 1024)); cbn [orb];
    try (left; split; [lia|reflexivity]).
  right. split; [lia|].
  change recommended_sizes
    with [1048576; 4194304; 8388608; 16777216; 33554432; 67108864]%Z.
  now destruct (bool_decide _).
Qed.

Lemma starts_with_empty (p : string) :
  p <> EmptyString -> starts_with p EmptyString = false.
Proof. destruct p; [contradiction|reflexivity]. Qed.

(** [validate_url] accepts a URL exactly when it starts with
    [https://], or with [http://] when HTTPS is not required; nothing
    after the scheme is looked at. *)
Theorem validate_url_accepts (url : string) (require_https : bool) :
  validate_url url require_https = Ok tt
  <-> starts_with "https://" url = true
      \/ (require_https = false /\ starts_with "http://" url = true).
Proof.
  unfold validate_url.
  destruct (String.eqb_spec url EmptyString) as [->|Hne].
  { split; [discriminate|]. intros [?|[_ ?]]; discriminate. }
  destruct (starts_with "http://" url) eqn:H1;
    destruct (starts_with "https://" url) eqn:H2;
    destruct require_https; cbn [orb andb negb];
    split; try discriminate; try reflexivity; auto;
    intros [?|[? ?]]; discriminate.
Qed.

End ValidationFacts.

(** ** [common/console.py]: [redact_key] *)

Module Console.
Local Open Scope string_scope.

(** [redact_key]: [key_hex[:8]] and [key_hex[-8:]] around three dots,
    for a string of 16 characters or more. *)
Definition redact_key (key_hex : string) : string :=
  if (String.length key_hex <? 16)%nat then "***"
  else substring 0 8 key_hex ++ "..."
       ++ substring (String.length key_hex - 8) 8 key_hex.

End Console.

(** ** [commands/edc.py]: [_load_manifest] *)

Module Edc.
Local Open Scope string_scope.

(** [needle in hay] on strings. *)
Fixpoint str_contains (needle hay : string) : bool :=
  Validation.starts_with needle hay
  || match hay with
     | EmptyString => false
     | String _ r => str_contains needle r
     end.

(** What [open] followed by [json.load] does: it raises
    [JSONDecodeError], raises something else (the file cannot be opened
    or decoded), or returns the document. *)
Inductive load_outcome : Type :=
| RaisesJSONDecodeError
| RaisesOther
| Loaded (document : json).

(** [item in container], [None] for the [TypeError] of a container that
    is a number, a boolean or [None]. *)
Definition json_contains (container : json) (item : string) : option bool :=
  match container with
  | JObj fields => Some (bool_decide (item ∈ map fst fields))
  | JArr items =>
      Some (existsb (fun j => match j with
                              | JStr s => (s =? item)
                              | _ => false
                              end) items)
  | JStr s => Some (str_contains item s)
  | JNull | JBool _ | JInt _ => None
  end.

Definition required_fields : list string :=
  ["format"; "algo"; "chunk_bytes"; "plaintext_bytes"; "sha256_ciphertext";
   "asset_id"].

(** [[f for f in fields if f not in manifest]] *)
Fixpoint missing_from (manifest : json) (fields : list string)
  : option (list string) :=
  match fields with
  | [] => Some []
  | f :: rest =>
      match json_contains manifest f with
      | None => None
      | Some present =>
          match missing_from manifest rest with
          | None => None
          | Some missing => Some (if present then missing else f :: missing)
          end
      end
  end.

(** [_load_manifest], on what loading the file gave. *)
Definition _load_manifest (loaded : load_outcome) : result json :=
  match loaded with
  | RaisesJSONDecodeError =>
      Raise (ValidationError "Invalid JSON in manifest file")
  | RaisesOther => Raise (ValidationError "Failed to load manifest")
  | Loaded manifest =>
      match missing_from manifest required_fields with
      | None => Raise (ValidationError "Failed to load manifest")
      | Some [] => Ok manifest
      | Some (_ :: _) =>
          Raise (ValidationError "Manifest is missing required fields")
      end
  end.

End Edc.

Module EdcFacts.
Import Edc.
Local Open Scope string_scope.

Lemma missing_from_nil (manifest : json) (fields : list string) :
  missing_from manifest fields = Some []
  <-> forall f, f ∈ fields -> json_contains manifest f = Some true.
Proof.
  induction fields as [|f rest IH]; simpl.
  - split; [|reflexivity]. intros _ f Hf. inversion Hf.
  - destruct (json_contains manifest f) as [[|]|] eqn:Ef.
    + destruct (missing_from manifest rest) as [m|] eqn:Em.
      * split.
        { intros [= ->]. intros g Hg. apply elem_of_cons in Hg as [->|Hg];
            [assumption|]. now apply IH. }
        { intros Hall. f_equal. enough (Some m = Some []) by congruence.
          apply IH. intros g Hg. apply Hall. now right. }
      * split; [discriminate|]. intros Hall.
        enough (@None (list string) = Some []) by discriminate.
        apply IH. intros g Hg. apply Hall. now right.
    + split.
      * destruct (missing_from manifest rest); discriminate.
      * intros Hall. specialize (Hall f ltac:(now left)). congruence.
    + split; [discriminate|].
      intros Hall. specialize (Hall f ltac:(now left)). congruence.
Qed.

Lemma missing_from_object (fields : list (string * json))
    (names : list string) :
  exists missing, missing_from (JObj fields) names = Some missing.
Proof.
  induction names as [|f rest [m IH]]; simpl; [eauto|].
  rewrite IH. eauto.
Qed.

(** A manifest that is a JSON object is accepted exactly when it has
    the six required keys, and is then returned as it is: no value is
    looked at, so any format, algo, chunk size, byte count, digest or
    asset id passes.  Without one of the keys the result is the
    [ValidationError] about missing fields. *)
Theorem load_manifest_object (fields : list (string * json)) :
  ((forall f, f ∈ required_fields -> f ∈ map fst fields)
   /\ _load_manifest (Loaded (JObj fields)) = Ok (JObj fields))
  \/ ((exists f, f ∈ required_fields /\ f ∉ map fst fields)
      /\ _load_manifest (Loaded (JObj fields))
         = Raise (ValidationError "Manifest is missing required fields")).
Proof.
  unfold _load_manifest.
  destruct (missing_from_object fields required_fields) as [m Hm].
  rewrite Hm. destruct m as [|f0 m].
  - left. split; [|reflexivity].
    intros f Hf. apply missing_from_nil with (f := f) in Hm; [|assumption].
    simpl in Hm. injection Hm as Hm. now apply bool_decide_eq_true in Hm.
  - right. split; [|reflexivity].
    destruct (decide (Forall (fun f => f ∈ map fst fields) required_fields))
      as [Hall|Hex].
    + assert (missing_from (JObj fields) required_fields = Some []);
        [|congruence].
      apply missing_from_nil. intros f Hf. simpl. f_equal.
      apply bool_decide_eq_true. rewrite Forall_forall in Hall. now apply Hall.
    + apply not_Forall_Exists in Hex; [|intros x; apply _].
      apply Exists_exists in Hex as (f & Hf & Hnf). eauto.
Qed.

(** Whatever the file holds, [_load_manifest] returns the document it
    loaded or raises a [ValidationError], never another exception. *)
Theorem load_manifest_outcomes (loaded : load_outcome) :
  (exists manifest, loaded = Loaded manifest
                    /\ _load_manifest loaded = Ok manifest)
  \/ (exists msg, _load_manifest loaded = Raise (ValidationError msg)).
Proof.
  destruct loaded as [| |manifest]; unfold _load_manifest;
    try (right; eexists; reflexivity).
  destruct (missing_from manifest required_fields) as [[|]|];
    try (right; eexists; reflexivity).
  left. exists manifest. split; reflexivity.
Qed.

(** The check is on membership, not on the document being an object:
    a JSON array is accepted when the six names are among its string
    items, a JSON string when each name occurs in it, and a number, a
    boolean or null never is. *)
Theorem load_manifest_non_object (manifest : json) :
  match manifest with
  | JArr items =>
      _load_manifest (Loaded manifest) = Ok manifest
      <-> forall f, f ∈ required_fields -> JStr f ∈ items
  | JStr s =>
      _load_manifest (Loaded manifest) = Ok manifest
      <-> forall f, f ∈ required_fields -> str_contains f s = true
  | JNull | JBool _ | JInt _ =>
      _load_manifest (Loaded manifest)
      = Raise (ValidationError "Failed to load manifest")
  | JObj _ => True
  end.
Proof.
  assert (Hgen : forall m, _load_manifest (Loaded m) = Ok m
                           <-> missing_from m required_fields = Some []).
  { intros m. unfold _load_manifest.
    destruct (missing_from m required_fields) as [[|]|];
      split; try discriminate; reflexivity. }
  destruct manifest as [| | | s|items|fields]; try reflexivity; try exact I.
  - rewrite Hgen, missing_from_nil. simpl.
    split; intros Hall f Hf; specialize (Hall f Hf); congruence.
  - rewrite Hgen, missing_from_nil. simpl.
    split; intros Hall f Hf; specialize (Hall f Hf).
    + injection Hall as Hall. apply existsb_exists in Hall as (j & Hj & Hs).
      destruct j; try discriminate. apply String.eqb_eq in Hs. subst.
      now apply list_elem_of_In.
    + f_equal. apply existsb_exists. exists (JStr f).
      split; [now apply list_elem_of_In|apply String.eqb_refl].
Qed.

End EdcFacts.

Module ConsoleFacts.
Import Console ValidationFacts.
Local Open Scope string_scope.

Lemma substring_0_app (a x : string) :
  substring 0 (String.length a) (a ++ x) = a.
Proof.
  induction a as [|c a IH]; [destruct x; reflexivity|].
  rewrite app_cons. simpl. now rewrite IH.
Qed.

Lemma substring_0_all (b : string) : substring 0 (String.length b) b = b.
Proof.
  induction b as [|c b IH]; [reflexivity|]. simpl. now rewrite IH.
Qed.

Lemma substring_skip (a x : string) (m : nat) :
  substring (String.length a) m (a ++ x) = substring 0 m x.
Proof.
  induction a as [|c a IH]; [reflexivity|].
  rewrite app_cons. simpl. exact IH.
Qed.

Lemma string_split_at (n : nat) :
  forall s : string, (n <= String.length s)%nat ->
    exists a b, s = a ++ b /\ String.length a = n.
Proof.
  induction n as [|n IH]; intros s Hn.
  - exists EmptyString, s. split; reflexivity.
  - destruct s as [|c s]; [simpl in Hn; lia|].
    destruct (IH s) as (a & b & -> & Ha); [simpl in Hn; lia|].
    exists (String c a), b. split; [reflexivity|]. simpl. now rewrite Ha.
Qed.

Lemma string_app_assoc (a b c : string) : (a ++ b) ++ c = a ++ b ++ c.
Proof.
  induction a as [|x a IH]; [reflexivity|].
  rewrite !app_cons. now rewrite IH.
Qed.

(** [redact_key] shows three stars for a string shorter than 16
    characters, and otherwise the first eight and the last eight
    characters of the string around three dots: of a 64-character key 48
    characters are left out, and of a 16-character string none is. *)
Theorem redact_key_shape (key_hex : string) :
  ((String.length key_hex < 16)%nat /\ redact_key key_hex = "***")
  \/ ((16 <= String.length key_hex)%nat
      /\ exists first hidden last : string,
           key_hex = first ++ hidden ++ last
           /\ String.length first = 8%nat
           /\ String.length last = 8%nat
           /\ String.length hidden = (String.length key_hex - 16)%nat
           /\ redact_key key_hex = first ++ "..." ++ last).
Proof.
  unfold redact_key.
  destruct (Nat.ltb_spec (String.length key_hex) 16) as [Hlt|Hge].
  - left. split; [assumption|reflexivity].
  - right. split; [assumption|].
    destruct (string_split_at (String.length key_hex - 8) key_hex)
      as (p & last & Hk & Hp); [lia|].
    destruct (string_split_at 8 p) as (first & hidden & Hpp & Hf); [lia|].
    assert (Hlen : String.length key_hex
                   = (String.length p + String.length last)%nat)
      by (rewrite Hk at 1; apply string_length_app').
    assert (Hlenp : String.length p
                    = (String.length first + String.length hidden)%nat)
      by (rewrite Hpp at 1; apply string_length_app').
    exists first, hidden, last.
    split; [rewrite Hk, Hpp; apply string_app_assoc|].
    split; [assumption|]. split; [lia|]. split; [lia|].
    f_equal; [|f_equal].
    + rewrite Hk, Hpp, string_app_assoc, <- Hf. apply substring_0_app.
    + rewrite <- Hp. rewrite Hk. rewrite substring_skip.
      replace 8%nat with (String.length last) by lia.
      apply substring_0_all.
Qed.

End ConsoleFacts.

(** Every dict [write_manifest] builds passes [_load_manifest],
    whatever the values put in it. *)
Theorem written_manifest_loads (asset_id weights_filename : string)
    (chunk_bytes plaintext_bytes : Z) (sha256_ciphertext : string) :
  Edc._load_manifest
    (Edc.Loaded (Tbenc.manifest_dict asset_id weights_filename chunk_bytes
                   plaintext_bytes sha256_ciphertext))
  = Ok (Tbenc.manifest_dict asset_id weights_filename chunk_bytes
          plaintext_bytes sha256_ciphertext).
Proof. reflexivity. Qed.

(** ** [common/retry.py]: [retry_with_backoff] *)

Module Retry.

Section RetryWithBackoff.

(** Values returned, exceptions raised, and delays (Python floats, with
    their multiplication and [min]). *)
Context {V E D : Type}.
Variable retryable : E -> bool.
Variable dmul : D -> D -> D.
Variable dmin : D -> D -> D.

Inductive call_outcome : Type :=
| Returns (v : V)
| Raises (e : E).

(** What the wrapper does in the end; [WReturnsNone] is falling off the
    end of the function. *)
Inductive wrapper_outcome : Type :=
| WReturns (v : V)
| WReturnsNone
| WRaises (e : E).

Inductive retry_event : Type :=
| Warned (attempt : Z) (delay : D)
| Slept (delay : D).

Record retry_run : Type := mkRun {
  outcome : wrapper_outcome;
  calls : nat;
  events : list retry_event
}.

(** The [for attempt in ...] loop of [wrapper].  [func k] is what the
    call number [k] (from 0) of the wrapped function does. *)
Fixpoint retry_loop (func : nat -> call_outcome) (max_attempts : Z)
    (backoff_factor max_delay : D) (attempts : list Z) (delay : D)
    (last_exception : option E) (ncalls : nat) (evs : list retry_event)
  : retry_run :=
  match attempts with
  | [] =>
      match last_exception with
      | Some e => mkRun (WRaises e) ncalls evs
      | None => mkRun WReturnsNone ncalls evs
      end
  | attempt :: rest =>
      match func ncalls with
      | Returns v => mkRun (WReturns v) (S ncalls) evs
      | Raises e =>
          if retryable e then
            let last_exception := Some e in
            if (attempt =? max_attempts)%Z
            then mkRun (WRaises e) (S ncalls) evs
            else
              let evs := evs ++ [Warned attempt delay; Slept delay] in
              let delay := dmin (dmul delay backoff_factor) max_delay in
              retry_loop func max_attempts backoff_factor max_delay rest
                delay last_exception (S ncalls) evs
          else mkRun (WRaises e) (S ncalls) evs
      end
  end.

(** [range(1, n + 1)] *)
Definition range_from_1 (n : Z) : list Z :=
  map Z.of_nat (seq 1 (Z.to_nat n)).

(** [retry_with_backoff(max_attempts, initial_delay, backoff_factor,
    max_delay, retryable_exceptions)(func)(...)] *)
Definition retry_with_backoff (max_attempts : Z)
    (initial_delay backoff_factor max_delay : D)
    (func : nat -> call_outcome) : retry_run :=
  retry_loop func max_attempts backoff_factor max_delay
    (range_from_1 max_attempts) initial_delay None 0 [].

End RetryWithBackoff.

End Retry.

Module RetryFacts.
Import Retry.

Section RetryProofs.

Context {V E D : Type}.
Variable retryable : E -> bool.
Variable dmul : D -> D -> D.
Variable dmin : D -> D -> D.

(** A call that ends the loop unless attempts are left: it raises an
    exception of a retryable class. *)
Definition asks_retry (o : @call_outcome V E) : bool :=
  match o with
  | Returns _ => false
  | Raises e => retryable e
  end.

Definition as_wrapper (o : @call_outcome V E) : @wrapper_outcome V E :=
  match o with
  | Returns v => WReturns v
  | Raises e => WRaises e
  end.

(** The warnings and sleeps before call number [k], from delay [d] and
    attempt number [a]. *)
Fixpoint backoff_events (a : Z) (d factor maxd : D) (k : nat)
  : list (@retry_event D) :=
  match k with
  | O => []
  | S k' => Warned a d :: Slept d
            :: backoff_events (a + 1) (dmin (dmul d factor) maxd)
                 factor maxd k'
  end.

Lemma retry_loop_spec (func : nat -> @call_outcome V E) (max_attempts : Z)
    (factor maxd : D) (k : nat) :
  forall (len c : nat) (d : D) (last : option E) (evs : list retry_event),
    (k < len)%nat ->
    Z.of_nat (c + len) = max_attempts ->
    (forall j, (j < k)%nat -> asks_retry (func (c + j)%nat) = true) ->
    asks_retry (func (c + k)%nat) = false \/ S k = len ->
    retry_loop retryable dmul dmin func max_attempts factor maxd
      (map Z.of_nat (seq (S c) len)) d last c evs
    = mkRun (as_wrapper (func (c + k)%nat)) (S (c + k))
        (evs ++ backoff_events (Z.of_nat (S c)) d factor maxd k).
Proof.
  induction k as [|k IH]; intros len c d last evs Hk Hmax Hretry Hstop.
  - destruct len as [|len]; [lia|]. cbn [seq map retry_loop backoff_events].
    rewrite Nat.add_0_r in *. rewrite app_nil_r.
    destruct (func c) as [v|e] eqn:Ef; [reflexivity|]. cbn [as_wrapper].
    destruct (retryable e) eqn:Er; [|reflexivity].
    destruct Hstop as [Hstop|Hlen]; [simpl in Hstop; congruence|].
    assert (Hlast : Z.of_nat (S c) = max_attempts) by (clear -Hlen Hmax; lia).
    apply Z.eqb_eq in Hlast. rewrite Hlast. reflexivity.
  - destruct len as [|len]; [lia|]. cbn [seq map retry_loop backoff_events].
    pose proof (Hretry 0%nat ltac:(lia)) as H0. rewrite Nat.add_0_r in H0.
    destruct (func c) as [v|e] eqn:Ef; [discriminate|]. simpl in H0.
    rewrite H0.
    assert (Hmore : Z.of_nat (S c) <> max_attempts) by (clear -Hk Hmax; lia).
    apply Z.eqb_neq in Hmore. rewrite Hmore.
    assert (Hk' : (k < len)%nat) by (clear -Hk; lia).
    assert (Hmax' : Z.of_nat (S c + len) = max_attempts)
      by (clear -Hmax; lia).
    assert (Eidx : (S c + k = c + S k)%nat) by (clear; lia).
    rewrite (IH len (S c) _ _ _ Hk' Hmax').
    + rewrite Eidx, <- app_assoc. cbn [app].
      replace (Z.of_nat (S c) + 1)%Z with (Z.of_nat (S (S c)))
        by (clear; lia).
      reflexivity.
    + intros j Hj. replace (S c + j)%nat with (c + S j)%nat by (clear; lia).
      apply Hretry. clear -Hj. lia.
    + rewrite Eidx.
      destruct Hstop as [Hstop|Hlen]; [now left|right; clear -Hlen; lia].
Qed.

(** The wrapper calls the function until a call returns or raises an
    exception that is not retryable, or until [max_attempts] calls have
    been made: if calls 0 to k-1 raise retryable exceptions and call k
    (k < max_attempts) does not, or is the last one allowed, then
    exactly k+1 calls are made, the wrapper ends as call k ended, and it
    has warned and slept k times, the delay starting at [initial_delay]
    and each time becoming [min(delay * backoff_factor, max_delay)]. *)
Theorem retry_with_backoff_stops (func : nat -> @call_outcome V E)
    (max_attempts : Z) (initial factor maxd : D) (k : nat) :
  (Z.of_nat k < max_attempts)%Z ->
  (forall j, (j < k)%nat -> asks_retry (func j) = true) ->
  asks_retry (func k) = false \/ Z.of_nat (S k) = max_attempts ->
  retry_with_backoff retryable dmul dmin max_attempts initial factor maxd
    func
  = mkRun (as_wrapper (func k)) (S k)
      (backoff_events 1 initial factor maxd k).
Proof.
  intros Hk Hretry Hstop. unfold retry_with_backoff, range_from_1.
  rewrite (retry_loop_spec func max_attempts factor maxd k
             (Z.to_nat max_attempts) 0); try lia.
  - reflexivity.
  - exact Hretry.
  - destruct Hstop as [Hstop|Hlast]; [now left|right; lia].
Qed.

(** With [max_attempts] zero or negative the wrapped function is never
    called and the wrapper returns [None]. *)
Theorem retry_with_backoff_no_attempts (func : nat -> @call_outcome V E)
    (max_attempts : Z) (initial factor maxd : D) :
  (max_attempts <= 0)%Z ->
  retry_with_backoff retryable dmul dmin max_attempts initial factor maxd
    func
  = mkRun WReturnsNone 0 [].
Proof.
  intros Hn. unfold retry_with_backoff, range_from_1.
  replace (Z.to_nat max_attempts) with 0%nat by lia. reflexivity.
Qed.

End RetryProofs.

End RetryFacts.

(** ** [commands/edc.py]: [_register_with_controlplane] *)

Module Register.
Import Retry.
Local Open Scope string_scope.

(** The two exception classes the function raises; of each the message
    is kept.  The message of a [ControlPlaneError] can be any JSON
    value, as one branch takes it from the response body. *)
Inductive cli_error : Type :=
| ControlPlaneError (message : json)
| NetworkError (message : string).

(** [isinstance(e, (NetworkError,))] *)
Definition is_network_error (e : cli_error) : bool :=
  match e with
  | NetworkError _ => true
  | ControlPlaneError _ => false
  end.

(** A [requests.Response]: [json_body] is what [response.json()]
    returns, [None] when it raises. *)
Record http_response : Type := mkResponse {
  status_code : Z;
  json_body : option json;
  text : string
}.

(** What [requests.post] does. *)
Inductive post_outcome : Type :=
| PostTimeout
| PostConnectionError (description : string)
| PostRaisesOther
| PostResponds (r : http_response).

Definition assoc (key : string) (fields : list (string * json))
  : option json :=
  snd <$> head (filter (fun kv : string * json => fst kv = key) fields).

(** [manifest[key]], [None] when it raises ([KeyError], or [TypeError]
    for a manifest that is not a dict). *)
Definition json_getitem (container : json) (key : string) : option json :=
  match container with
  | JObj fields => assoc key fields
  | _ => None
  end.

(** The [payload] dict, [None] when building it raises. *)
Definition build_payload (asset_id : string) (manifest : json)
    (key_hex blob_url_base : string) : option json :=
  let encrypted_url := blob_url_base ++ "/models/" ++ asset_id ++ "/model.tbenc" in
  let manifest_url :=
    blob_url_base ++ "/models/" ++ asset_id ++ "/model.manifest.json" in
  fmt ← json_getitem manifest "format";
  algo ← json_getitem manifest "algo";
  chunk_bytes ← json_getitem manifest "chunk_bytes";
  plaintext_bytes ← json_getitem manifest "plaintext_bytes";
  sha256_ciphertext ← json_getitem manifest "sha256_ciphertext";
  Some (JObj [ ("asset_id", JStr asset_id);
               ("blob_urls", JObj [ ("ciphertext", JStr encrypted_url);
                                    ("manifest", JStr manifest_url) ]);
               ("metadata", JObj [ ("format", fmt);
                                   ("algo", algo);
                                   ("chunk_bytes", chunk_bytes);
                                   ("plaintext_bytes", plaintext_bytes);
                                   ("sha256_ciphertext", sha256_ciphertext) ]);
               ("decryption_key_hex", JStr key_hex) ]).

(** The message of the error raised on HTTP 400. *)
Definition validation_message (r : http_response) : json :=
  match json_body r with
  | Some (JObj fields) =>
      default (JStr "Validation failed") (assoc "message" fields)
  | _ => JStr "Validation failed"
  end.

(** One call of the undecorated function; [post] is [requests.post] at
    the time of the call, given the URL and the JSON body. *)
Definition register_once (post : string -> json -> post_outcome)
    (endpoint asset_id : string) (manifest : json)
    (key_hex blob_url_base : string) : @call_outcome json cli_error :=
  match build_payload asset_id manifest key_hex blob_url_base with
  | None => Raises (ControlPlaneError (JStr "Failed to register asset"))
  | Some payload =>
      let register_url := endpoint ++ "/api/v1/assets/register" in
      match post register_url payload with
      | PostTimeout =>
          Raises (NetworkError "Request timed out after 30 seconds")
      | PostConnectionError description =>
          Raises (NetworkError ("Connection error: " ++ description))
      | PostRaisesOther =>
          Raises (ControlPlaneError (JStr "Failed to register asset"))
      | PostResponds response =>
          let status := status_code response in
          if (status =? 200)%Z || (status =? 201)%Z then
            match json_body response with
            | Some body => Returns body
            | None =>
                Raises (ControlPlaneError (JStr "Failed to register asset"))
            end
          else if (status =? 400)%Z then
            Raises (ControlPlaneError (validation_message response))
          else if (status =? 401)%Z || (status =? 403)%Z then
            Raises (ControlPlaneError
                      (JStr "Authentication or authorization failed"))
          else if (status >=? 500)%Z then
            Raises (NetworkError
                      ("Control Plane server error (HTTP " ++ pretty status
                       ++ ")"))
          else
            Raises (ControlPlaneError
                      (JStr ("Registration failed with HTTP "
                             ++ pretty status)))
      end
  end.

Section Decorated.

(** Python floats, their product and [min], and the floats 2.0 and
    60.0. *)
Context {D : Type}.
Variable dmul : D -> D -> D.
Variable dmin : D -> D -> D.
Variables float_2 float_60 : D.

(** [_register_with_controlplane] as decorated: three attempts at most,
    first delay 2.0, factor 2.0, delay capped at 60.0, retrying on
    [NetworkError].  [post k] is [requests.post] during call [k]. *)
Definition _register_with_controlplane
    (post : nat -> string -> json -> post_outcome)
    (endpoint asset_id : string) (manifest : json)
    (key_hex blob_url_base : string) : retry_run :=
  retry_with_backoff is_network_error dmul dmin 3 float_2 float_2 float_60
    (fun k => register_once (post k) endpoint asset_id manifest key_hex
                blob_url_base).

End Decorated.

End Register.

Module RegisterFacts.
Import Retry Register.
Local Open Scope string_scope.



Lemma register_once_final (post : string -> json -> post_outcome)
    (endpoint asset_id : string) (manifest : json)
    (key_hex blob_url_base : string) (payload : json) (r : http_response) :
  build_payload asset_id manifest key_hex blob_url_base = Some payload ->
  post (endpoint ++ "/api/v1/assets/register") payload = PostResponds r ->
  (status_code r < 500)%Z ->
  (exists body, (status_code r = 200 \/ status_code r = 201)%Z
                /\ json_body r = Some body
                /\ register_once post endpoint asset_id manifest key_hex
                     blob_url_base = Returns body)
  \/ (~ ((status_code r = 200 \/ status_code r = 201)%Z
         /\ is_Some (json_body r))
      /\ exists message,
           register_once post endpoint asset_id manifest key_hex
             blob_url_base = Raises (ControlPlaneError message)).
Proof.
  intros Hp Hpost Hs. unfold register_once. rewrite Hp, Hpost. cbv zeta.
  destruct (Z.eqb_spec (status_code r) 200) as [E200|N200];
    [|destruct (Z.eqb_spec (status_code r) 201) as [E201|N201]];
    cbn [orb].
  1,2: destruct (json_body r) as [body|] eqn:Eb;
    [left; exists body; auto
    |right; split; [intros [_ [? ?]]; discriminate|eauto]].
  right. split; [intros [[?|?] _]; lia|].
  destruct (Z.eqb_spec (status_code r) 400); [eauto|].
  destruct (Z.eqb_spec (status_code r) 401); [cbn [orb]; eauto|].
  destruct (Z.eqb_spec (status_code r) 403); [cbn [orb]; eauto|].
  cbn [orb]. destruct (Z.geb_spec (status_code r) 500); [lia|]. eauto.
Qed.

Section DecoratedFacts.

Context {D : Type}.
Variable dmul : D -> D -> D.
Variable dmin : D -> D -> D.
Variables float_2 float_60 : D.

(** An answer with a status below 500 is final: the request is made
    once, nothing is slept, and the result is the JSON body for a 200 or
    201 whose body parses and a [ControlPlaneError] for everything
    else. *)
Theorem register_answer_is_final
    (post : nat -> string -> json -> post_outcome)
    (endpoint asset_id : string) (manifest : json)
    (key_hex blob_url_base : string) (payload : json)
    (r : http_response) :
  build_payload asset_id manifest key_hex blob_url_base = Some payload ->
  post 0%nat (endpoint ++ "/api/v1/assets/register") payload
  = PostResponds r ->
  (status_code r < 500)%Z ->
  let run := _register_with_controlplane dmul dmin float_2 float_60 post
               endpoint asset_id manifest key_hex blob_url_base in
  calls run = 1%nat
  /\ events run = []
  /\ ((exists body, (status_code r = 200 \/ status_code r = 201)%Z
                    /\ json_body r = Some body
                    /\ outcome run = WReturns body)
      \/ (~ ((status_code r = 200 \/ status_code r = 201)%Z
             /\ is_Some (json_body r))
          /\ exists message,
               outcome run = WRaises (ControlPlaneError message))).
Proof.
  intros Hp Hpost Hs run. subst run.
  unfold _register_with_controlplane, retry_with_backoff.
  change (range_from_1 3) with [1; 2; 3]%Z.
  cbn [retry_loop]. cbv beta.
  destruct (register_once_final (post 0%nat) endpoint asset_id manifest
              key_hex blob_url_base payload r Hp Hpost Hs)
    as [(body & Hst & Hb & ->)|(Hno & message & ->)];
    cbn [is_network_error calls events outcome].
  - split; [reflexivity|]. split; [reflexivity|]. left. eauto.
  - split; [reflexivity|]. split; [reflexivity|]. right. eauto.
Qed.


(** A manifest without one of the five metadata fields, or one that is
    not an object at all, ends the call with a [ControlPlaneError]
    whatever the server would have answered, and is not retried. *)
Theorem register_needs_metadata
    (post : nat -> string -> json -> post_outcome)
    (endpoint asset_id : string) (manifest : json)
    (key_hex blob_url_base : string) (field : string) :
  field ∈ ["format"; "algo"; "chunk_bytes"; "plaintext_bytes";
           "sha256_ciphertext"] ->
  json_getitem manifest field = None ->
  _register_with_controlplane dmul dmin float_2 float_60 post
    endpoint asset_id manifest key_hex blob_url_base
  = mkRun (WRaises (ControlPlaneError (JStr "Failed to register asset")))
      1 [].
Proof.
  intros Hf Hnone.
  assert (Hp : build_payload asset_id manifest key_hex blob_url_base = None).
  { unfold build_payload.
    repeat (apply elem_of_cons in Hf as [->|Hf];
            [rewrite Hnone;
             repeat (destruct (json_getitem manifest _); cbn; try reflexivity)
            |]).
    inversion Hf. }
  unfold _register_with_controlplane, retry_with_backoff.
  change (range_from_1 3) with [1; 2; 3]%Z.
  cbn [retry_loop]. cbv beta. unfold register_once. rewrite Hp. reflexivity.
Qed.

End DecoratedFacts.

End RegisterFacts.

(** ** [e2e/blob-server/server.py] *)

Module BlobServer.
Local Open Scope string_scope.

(** [s.split(sep, 1)] when [sep] occurs in [s], [None] when it does
    not. *)
Fixpoint split_first (sep : ascii) (s : string) : option (string * string) :=
  match s with
  | EmptyString => None
  | String c r =>
      if (c =? sep)%char then Some (EmptyString, r)
      else match split_first sep r with
           | Some (a, b) => Some (String c a, b)
           | None => None
           end
  end.

(** [s[n:]] *)
Fixpoint string_drop (n : nat) (s : string) : string :=
  match n, s with
  | O, _ => s
  | S n', String _ r => string_drop n' r
  | S _, EmptyString => EmptyString
  end.

Fixpoint ends_with_slash (s : string) : bool :=
  match s with
  | EmptyString => false
  | String c EmptyString => (c =? "/")%char
  | String _ r => ends_with_slash r
  end.

(** [os.path.join(a, b)] on POSIX. *)
Definition os_path_join (a b : string) : string :=
  if Validation.starts_with "/" b then b
  else if (a =? EmptyString) || ends_with_slash a then a ++ b
  else a ++ "/" ++ b.

(** A [flask.Response] as the handlers build it: status, the
    [mimetype] argument, the headers set one by one, the body, and the
    [download_name] given to [send_file]. *)
Record response : Type := mkResponse {
  status : Z;
  mimetype : option string;
  headers : list (string * string);
  body : bytes;
  download_name : option string
}.

(** What a handler does: [abort(code, description)] or a response. *)
Inductive handled : Type :=
| Abort (code : Z) (description : string)
| Respond (r : response).

Section Server.

(** [int(s)], [None] when it raises [ValueError]. *)
Variable py_int : string -> option Z.

(** [BLOB_DATA_DIR] *)
Variable DATA_DIR : string.

(** [parse_range_header] *)
Definition parse_range_header (range_header : string) (file_size : Z)
  : option (Z * Z) :=
  if (range_header =? EmptyString)
     || negb (Validation.starts_with "bytes=" range_header)
  then None
  else
    let range_spec := string_drop 6 range_header in
    match split_first "-" range_spec with
    | None => None
    | Some (start_str, end_str) =>
        let parsed :=
          if (start_str =? EmptyString) then
            suffix_length ← py_int end_str;
            Some (Z.max 0 (file_size - suffix_length), file_size - 1)%Z
          else if (end_str =? EmptyString) then
            start ← py_int start_str;
            Some (start, file_size - 1)%Z
          else
            start ← py_int start_str;
            end_ ← py_int end_str;
            Some (start, end_)
        in
        match parsed with
        | None => None
        | Some (start, end_) =>
            if (start <? 0)%Z || (start >=? file_size)%Z then None
            else
              let end_ := if (end_ >=? file_size)%Z then (file_size - 1)%Z
                          else end_ in
              if (start >? end_)%Z then None
              else Some (start, end_)
        end
    end.

(** [serve_file_with_range], on the content of the file and the value
    of the [Range] header ([None] when the request has none). *)
Definition serve_file_with_range (content : bytes) (filename : string)
    (range_header : option string) : response :=
  let file_size := Z.of_nat (length content) in
  match range_header with
  | Some rh =>
      if (rh =? EmptyString) then
        mkResponse 200 (Some "application/octet-stream")
          [("Accept-Ranges", "bytes"); ("Content-Length", pretty file_size)]
          content (Some filename)
      else
        match parse_range_header rh file_size with
        | None =>
            mkResponse 416 None
              [("Content-Range", "bytes */" ++ pretty file_size)] [] None
        | Some (start, end_) =>
            let length := (end_ - start + 1)%Z in
            let data := take (Z.to_nat length) (drop (Z.to_nat start) content) in
            mkResponse 206 (Some "application/octet-stream")
              [("Content-Range",
                "bytes " ++ pretty start ++ "-" ++ pretty end_ ++ "/"
                ++ pretty file_size);
               ("Content-Length", pretty length);
               ("Accept-Ranges", "bytes")]
              data None
        end
  | None =>
      mkResponse 200 (Some "application/octet-stream")
        [("Accept-Ranges", "bytes"); ("Content-Length", pretty file_size)]
        content (Some filename)
  end.

(** [get_artifact]; [files path] is the content of the regular file at
    [path], [None] when [os.path.isfile(path)] is false. *)
Definition get_artifact (files : string -> option bytes)
    (method : string) (range_header : option string) (filename : string)
  : handled :=
  if Edc.str_contains ".." filename || Validation.starts_with "/" filename
  then Abort 400 "Invalid filename"
  else
    let file_path := os_path_join DATA_DIR filename in
    match files file_path with
    | None => Abort 404 "File not found"
    | Some content =>
        if (method =? "HEAD") then
          let file_size := Z.of_nat (length content) in
          Respond (mkResponse 200 None
                     [("Content-Length", pretty file_size);
                      ("Accept-Ranges", "bytes");
                      ("Content-Type", "application/octet-stream")]
                     [] None)
        else Respond (serve_file_with_range content filename range_header)
    end.

End Server.

End BlobServer.

Module BlobServerFacts.
Import BlobServer ValidationFacts.
Local Open Scope string_scope.

(** A decimal reader for running the definitions: digits only. *)
Fixpoint read_digits (acc : Z) (s : string) : option Z :=
  match s with
  | EmptyString => Some acc
  | String c r =>
      let d := (Z.of_nat (nat_of_ascii c) - 48)%Z in
      if (0 <=? d)%Z && (d <=? 9)%Z then read_digits (acc * 10 + d) r
      else None
  end.

Definition digits_only_int (s : string) : option Z :=
  match s with
  | EmptyString => None
  | _ => read_digits 0 s
  end.

Fixpoint has_char (c : ascii) (s : string) : bool :=
  match s with
  | EmptyString => false
  | String x r => (x =? c)%char || has_char c r
  end.

Lemma split_first_app (sep : ascii) (a b : string) :
  has_char sep a = false ->
  split_first sep (a ++ String sep b) = Some (a, b).
Proof.
  induction a as [|c a IH]; intros Ha.
  - rewrite app_empty_l. simpl. now rewrite Ascii.eqb_refl.
  - rewrite app_cons. simpl in *.
    apply orb_false_iff in Ha as [Hc Ha]. rewrite Hc, IH by assumption.
    reflexivity.
Qed.

Section ServerFacts.

Variable py_int : string -> option Z.
Variable DATA_DIR : string.

Lemma parse_range_bounds (range_header : string) (file_size : Z)
    (first last : Z) :
  parse_range_header py_int range_header file_size = Some (first, last) ->
  (0 <= first <= last)%Z /\ (last < file_size)%Z.
Proof.
  unfold parse_range_header.
  destruct (_ || _); [discriminate|].
  destruct (split_first _ _) as [[start_str end_str]|]; [|discriminate].
  match goal with
  | |- context [match ?p with Some _ => _ | None => None end] =>
      destruct p as [[s e]|]; [|discriminate]
  end.
  destruct (Z.ltb_spec s 0); [discriminate|].
  destruct (Z.geb_spec s file_size); [discriminate|]. cbn [orb].
  destruct (Z.geb_spec e file_size);
    match goal with
    | |- context [(s >? ?x)%Z] => destruct (Z.gtb_spec s x)
    end; try discriminate; intros [= <- <-]; lia.
Qed.

(** A range [parse_range_header] returns lies within the file: its
    start is not negative, not after its end, and its end is below the
    file size; so on an empty file no header gives a range. *)
Theorem parse_range_within_file (range_header : string) (file_size : Z)
    (first last : Z) :
  parse_range_header py_int range_header file_size = Some (first, last) ->
  (0 <= first <= last)%Z /\ (last < file_size)%Z /\ (0 < file_size)%Z.
Proof.
  intros Hp. apply parse_range_bounds in Hp. lia.
Qed.

(** [bytes=a-b] and [bytes=a-] are read as meant: with [a] and [b]
    read by [int] as [first] and [given], the start inside the file and
    not after [given], the range is from [first] to [given], cut at the
    last byte of the file; with nothing after the dash it runs to the
    last byte. *)
Theorem parse_range_explicit (a b : string) (file_size first : Z)
    (given : option Z) :
  a <> EmptyString ->
  has_char "-" a = false ->
  py_int a = Some first ->
  (0 <= first < file_size)%Z ->
  match given with
  | Some e => b <> EmptyString /\ py_int b = Some e /\ (first <= e)%Z
  | None => b = EmptyString
  end ->
  parse_range_header py_int ("bytes=" ++ a ++ "-" ++ b) file_size
  = Some (first, match given with
                 | Some e => Z.min e (file_size - 1)
                 | None => (file_size - 1)%Z
                 end).
Proof.
  intros Ha Hdash Hint Hfirst Hgiven.
  unfold parse_range_header.
  change ("bytes=" ++ a ++ "-" ++ b)
    with (String "b" (String "y" (String "t" (String "e" (String "s"
            (String "=" (a ++ String "-" b))))))).
  cbn [String.eqb Validation.starts_with Ascii.eqb Bool.eqb andb negb orb
       string_drop].
  rewrite split_first_app by assumption.
  rewrite (eqb_empty_false a Ha). rewrite Hint.
  destruct given as [e|].
  - destruct Hgiven as (Hb & Hintb & Hle).
    rewrite (eqb_empty_false b Hb), Hintb. cbn [mbind option_bind].
    destruct (Z.ltb_spec first 0); [lia|].
    destruct (Z.geb_spec first file_size); [lia|]. cbn [orb].
    destruct (Z.geb_spec e file_size).
    + destruct (Z.gtb_spec first (file_size - 1)); [lia|].
      f_equal. f_equal. lia.
    + destruct (Z.gtb_spec first e); [lia|]. f_equal. f_equal. lia.
  - subst b. cbn [String.eqb mbind option_bind].
    destruct (Z.ltb_spec first 0); [lia|].
    destruct (Z.geb_spec first file_size); [lia|]. cbn [orb].
    destruct (Z.geb_spec (file_size - 1) file_size); [lia|].
    destruct (Z.gtb_spec first (file_size - 1)); [lia|]. reflexivity.
Qed.

(** [bytes=-n] asks for the last [n] bytes: with [n] read by [int] and
    at least 1, on a file that is not empty, the range is the last [n]
    bytes, or the whole file when it has fewer. *)
Theorem parse_range_suffix (b : string) (file_size n : Z) :
  py_int b = Some n ->
  (1 <= n)%Z -> (1 <= file_size)%Z ->
  parse_range_header py_int ("bytes=-" ++ b) file_size
  = Some (Z.max 0 (file_size - n), file_size - 1)%Z.
Proof.
  intros Hint Hn Hsize. unfold parse_range_header.
  change ("bytes=-" ++ b)
    with (String "b" (String "y" (String "t" (String "e" (String "s"
            (String "=" (String "-" b))))))).
  cbn [String.eqb Validation.starts_with Ascii.eqb Bool.eqb andb negb orb
       string_drop split_first].
  rewrite Hint. cbn [mbind option_bind].
  destruct (Z.ltb_spec (Z.max 0 (file_size - n)) 0); [lia|].
  destruct (Z.geb_spec (Z.max 0 (file_size - n)) file_size); [lia|].
  cbn [orb].
  destruct (Z.geb_spec (file_size - 1) file_size); [lia|].
  destruct (Z.gtb_spec (Z.max 0 (file_size - n)) (file_size - 1)); [lia|].
  reflexivity.
Qed.

(** A request with a [Range] header gets 416 with an empty body when
    the header gives no range, and otherwise 206 with exactly the bytes
    from the first to the last position of the range: the body has
    [last - first + 1] bytes, its [i]-th byte is byte [first + i] of the
    file, and the Content-Length and Content-Range headers say so. *)
Theorem serve_range_body (content : bytes) (filename range_header : string) :
  range_header <> EmptyString ->
  let file_size := Z.of_nat (length content) in
  let r := serve_file_with_range py_int content filename
             (Some range_header) in
  (parse_range_header py_int range_header file_size = None
   /\ status r = 416%Z /\ body r = []
   /\ headers r = [("Content-Range", "bytes */" ++ pretty file_size)])
  \/ (exists first last : Z,
        parse_range_header py_int range_header file_size
        = Some (first, last)
        /\ status r = 206%Z
        /\ Z.of_nat (length (body r)) = (last - first + 1)%Z
        /\ (forall i : nat,
              (Z.of_nat i <= last - first)%Z ->
              body r !! i = content !! (Z.to_nat first + i)%nat)
        /\ headers r
           = [("Content-Range",
               "bytes " ++ pretty first ++ "-" ++ pretty last ++ "/"
               ++ pretty file_size);
              ("Content-Length", pretty (Z.of_nat (length (body r))));
              ("Accept-Ranges", "bytes")]).
Proof.
  intros Hne file_size r. subst r. unfold serve_file_with_range.
  rewrite (eqb_empty_false _ Hne). fold file_size.
  destruct (parse_range_header py_int range_header file_size)
    as [[first last]|] eqn:Ep.
  - right. exists first, last.
    apply parse_range_bounds in Ep as [Hfl Hl]. unfold file_size in Hl.
    cbn [status body headers].
    assert (Hlen : Z.of_nat
                     (length (take (Z.to_nat (last - first + 1))
                                (drop (Z.to_nat first) content)))
                   = (last - first + 1)%Z).
    { rewrite length_take, length_drop. lia. }
    split; [reflexivity|]. split; [reflexivity|]. split; [exact Hlen|].
    split; [|now rewrite Hlen].
    intros i Hi. rewrite lookup_take_lt by lia. apply lookup_drop.
  - left. cbn [status body headers]. auto.
Qed.

Definition separator (dir : string) : string :=
  if (dir =? EmptyString) || ends_with_slash dir then EmptyString else "/".

(** No file outside the data directory has any influence on an answer:
    two file systems that hold the same files at the paths made of
    [DATA_DIR], a slash (unless [DATA_DIR] ends with one or is empty) and
    a relative name without [..] get the same answer to every request.
    A name containing [..] or starting with a slash is answered 400
    before any file is looked at. *)
Theorem get_artifact_confined (files files' : string -> option bytes)
    (method : string) (range_header : option string) (filename : string) :
  (forall name,
     Edc.str_contains ".." name = false ->
     Validation.starts_with "/" name = false ->
     files (DATA_DIR ++ separator DATA_DIR ++ name)
     = files' (DATA_DIR ++ separator DATA_DIR ++ name)) ->
  get_artifact py_int DATA_DIR files method range_header filename
  = get_artifact py_int DATA_DIR files' method range_header filename
  /\ (Edc.str_contains ".." filename = true
      \/ Validation.starts_with "/" filename = true ->
      get_artifact py_int DATA_DIR files method range_header filename
      = Abort 400 "Invalid filename").
Proof.
  intros Hagree. unfold get_artifact.
  destruct (Edc.str_contains ".." filename) eqn:Hdots;
    [split; [reflexivity|intros _; reflexivity]|].
  destruct (Validation.starts_with "/" filename) eqn:Hslash;
    [split; [reflexivity|intros _; reflexivity]|].
  cbn [orb]. split; [|intros [?|?]; discriminate].
  assert (Hpath : os_path_join DATA_DIR filename
                  = DATA_DIR ++ separator DATA_DIR ++ filename).
  { unfold os_path_join, separator. rewrite Hslash.
    destruct (_ || _); reflexivity. }
  rewrite Hpath, (Hagree filename Hdots Hslash). reflexivity.
Qed.

End ServerFacts.

End BlobServerFacts.

(** ** The command-line check and the encoder agree on chunk sizes *)

Section ChunkSizeChecks.
Import Tbenc Validation.

Context `{AEAD} `{SHA256}.

(** [validate_chunk_size], which the encrypt command runs first, and
    the range check inside [encrypt_file] draw the same line: on a
    readable input and with a 32-byte key, [encrypt_file] succeeds for
    every chunk size the validation lets through, and refuses with its
    [ValueError], touching nothing, every chunk size the validation
    refuses. *)
Theorem chunk_size_checks_agree (w : World)
    (input_path output_path : string) (key : bytes) (chunk_bytes : Z)
    (plaintext : bytes) :
  length key = 32%nat ->
  fs w !! input_path = Some plaintext ->
  input_path <> output_path ->
  Z.of_nat (length plaintext) < 2 ^ 64 ->
  match validate_chunk_size chunk_bytes with
  | Ok _ =>
      exists r w',
        encrypt_file input_path output_path key chunk_bytes w = (Ok r, w')
  | Raise _ =>
      encrypt_file input_path output_path key chunk_bytes w
      = (Raise (ValueError "chunk_bytes must be between 1KB and 64MB"), w)
  end.
Proof.
  intros Hkey Hin Hneq Hsize.
  destruct (ValidationFacts.validate_chunk_size_cases chunk_bytes)
    as [[Hout ->]|[Hcb ->]].
  - unfold encrypt_file. rewrite Hkey. cbn [Nat.eqb negb].
    destruct (Z.ltb_spec chunk_bytes 1024);
      destruct (Z.gtb_spec chunk_bytes (64 * 1024 * 1024));
      try reflexivity; lia.
  - eexists _, _.
    apply (encrypt_file_spec w input_path output_path key chunk_bytes
             plaintext); assumption.
Qed.

End ChunkSizeChecks.

(** ** The properties above at concrete inputs *)

Section MoreWitnesses.
Import Struct Tbenc StubInstances CodecFacts.

Lemma derive_nonce_injective_witness : 5 = 5.
Proof.
  apply (derive_nonce_injective [x01; x02; x03; x04] 5 5
           (nonce_layout [x01; x02; x03; x04] 5)); reflexivity.
Defined.

Lemma build_aad_injective_witness :
  1024 = 1024 /\ [x01; x02; x03; x04] = [x01; x02; x03; x04]
  /\ 2 = 2 /\ 500 = 500.
Proof.
  apply (build_aad_injective MAGIC VERSION ALGO_AES_GCM_CHUNKED
           1024 1024 [x01; x02; x03; x04] [x01; x02; x03; x04] 2 2 500 500
           (aad_layout 1024 [x01; x02; x03; x04] 2 500)); reflexivity.
Defined.

Lemma encrypt_file_nonces_unique_witness :
  exists (r : string * Z) (w' : World) (evs : list io_event),
    encrypt_file "plain.bin" "out.tbenc" sample_key 1024 sample_world
    = (Ok r, w')
    /\ log w' = log sample_world ++ evs
    /\ NoDup (encrypt_nonces evs)
    /\ Z.of_nat (length (encrypt_nonces evs)) = ceil_div 5 1024
    /\ Forall (fun nonce => length nonce = 12%nat) (encrypt_nonces evs).
Proof.
  apply (encrypt_file_nonces_unique sample_world "plain.bin" "out.tbenc"
           sample_key 1024 sample_plaintext).
  - reflexivity.
  - lia.
  - reflexivity.
  - discriminate.
  - simpl. lia.
Defined.

Lemma encrypt_file_digest_witness :
  exists (w' : World) (content : bytes),
    encrypt_file "plain.bin" "out.tbenc" sample_key 1024 sample_world
    = (Ok (hexlify (sha256 content), 5), w')
    /\ fs w' !! "out.tbenc"%string = Some content
    /\ String.length (hexlify (sha256 content)) = 64%nat
    /\ string_forallb is_lower_hex (hexlify (sha256 content)) = true.
Proof.
  apply (encrypt_file_digest sample_world "plain.bin" "out.tbenc"
           sample_key 1024 sample_plaintext).
  - reflexivity.
  - lia.
  - reflexivity.
  - discriminate.
  - simpl. lia.
Defined.

Lemma encrypt_file_frame_witness :
  fs (snd (encrypt_file "plain.bin" "out.tbenc" sample_key 1024
             sample_world)) !! "plain.bin"%string
  = fs sample_world !! "plain.bin"%string.
Proof.
  apply (encrypt_file_frame sample_world "plain.bin" "out.tbenc"
           sample_key 1024 sample_plaintext "plain.bin").
  - reflexivity.
  - lia.
  - reflexivity.
  - discriminate.
  - simpl. lia.
  - discriminate.
Defined.

Lemma encrypt_file_rejects_arguments_witness :
  encrypt_file "plain.bin" "out.tbenc" sample_key 100 sample_world
  = (Raise (ValueError "chunk_bytes must be between 1KB and 64MB"),
     sample_world).
Proof.
  apply (encrypt_file_rejects_arguments sample_world "plain.bin"
           "out.tbenc" sample_key 100).
  right. left. lia.
Defined.

Lemma encrypt_file_missing_input_witness :
  encrypt_file "absent.bin" "out.tbenc" sample_key 1024 sample_world
  = (Raise (FileNotFoundError "absent.bin"),
     mkWorld (fs sample_world) (log sample_world) (entropy sample_world)
       (entropy_pos sample_world + 4)).
Proof.
  apply (encrypt_file_missing_input sample_world "absent.bin" "out.tbenc"
           sample_key 1024).
  - reflexivity.
  - lia.
  - reflexivity.
Defined.

Lemma encrypt_file_records_open_witness :
  exists (r : string * Z) (w' : World) (content : bytes),
    encrypt_file "plain.bin" "out.tbenc" sample_key 1024 sample_world
    = (Ok r, w')
    /\ fs w' !! "out.tbenc"%string = Some content.
Proof.
  destruct (encrypt_file_records_open sample_world "plain.bin" "out.tbenc"
              sample_key 1024 sample_plaintext)
    as (r & w' & header & recs & pts & Hrun & Hfs & _).
  - reflexivity.
  - lia.
  - reflexivity.
  - discriminate.
  - simpl. lia.
  - exists r, w', (header ++ concat (map encode_record recs)).
    split; [exact Hrun|exact Hfs].
Defined.



Lemma chunk_size_checks_agree_witness :
  exists r w',
    encrypt_file "plain.bin" "out.tbenc" sample_key 1024 sample_world
    = (Ok r, w').
Proof.
  apply (chunk_size_checks_agree sample_world "plain.bin" "out.tbenc"
           sample_key 1024 sample_plaintext).
  - reflexivity.
  - reflexivity.
  - discriminate.
  - simpl. lia.
Defined.

End MoreWitnesses.

Section ServiceWitnesses.
Import Retry RetryFacts Register RegisterFacts BlobServer BlobServerFacts
       StubInstances.

(** A function that fails twice with a retryable error, then returns. *)
Definition flaky (k : nat) : @call_outcome Z bool :=
  if (k <? 2)%nat then Raises true else Returns 7.

Lemma retry_with_backoff_stops_witness :
  retry_with_backoff (fun e : bool => e) Z.mul Z.min 3 1 2 60 flaky
  = mkRun (WReturns 7) 3 [Warned 1 1; Slept 1; Warned 2 2; Slept 2].
Proof.
  apply (retry_with_backoff_stops (fun e : bool => e) Z.mul Z.min flaky
           3 1 2 60 2).
  - lia.
  - intros [|[|j]] Hj; [reflexivity|reflexivity|lia].
  - left. reflexivity.
Defined.

Lemma retry_with_backoff_no_attempts_witness :
  retry_with_backoff (fun e : bool => e) Z.mul Z.min 0 1 2 60 flaky
  = mkRun WReturnsNone 0 [].
Proof.
  apply (retry_with_backoff_no_attempts (fun e : bool => e) Z.mul Z.min
           flaky 0 1 2 60).
  lia.
Defined.

Definition sample_manifest : json :=
  Tbenc.manifest_dict "asset-1" "model.tbenc" 1024 5 "00".

Definition sample_payload : json :=
  default JNull
    (build_payload "asset-1" sample_manifest "ab" "https://blobs.example").

(** A server that answers every request with 404, and one that answers
    with 503. *)
Definition always_404 (k : nat) (url : string) (payload : json)
  : post_outcome :=
  PostResponds (Register.mkResponse 404 None "not found").


Lemma register_answer_is_final_witness :
  calls (_register_with_controlplane Z.mul Z.min 2 60 always_404
           "https://cp.example" "asset-1" sample_manifest "ab"
           "https://blobs.example") = 1%nat.
Proof.
  apply (register_answer_is_final Z.mul Z.min 2 60 always_404
           "https://cp.example" "asset-1" sample_manifest "ab"
           "https://blobs.example" sample_payload
           (Register.mkResponse 404 None "not found")).
  - reflexivity.
  - reflexivity.
  - simpl. lia.
Defined.


Lemma parse_range_within_file_witness :
  (0 <= 0 <= 499)%Z /\ (499 < 1000)%Z /\ (0 < 1000)%Z.
Proof.
  apply (parse_range_within_file digits_only_int "bytes=0-499" 1000 0 499).
  reflexivity.
Defined.

Lemma parse_range_explicit_witness :
  parse_range_header digits_only_int "bytes=900-2000" 1000
  = Some (900, 999)%Z.
Proof.
  apply (parse_range_explicit digits_only_int "900" "2000" 1000 900
           (Some 2000)).
  - discriminate.
  - reflexivity.
  - reflexivity.
  - lia.
  - split; [discriminate|]. split; [reflexivity|lia].
Defined.

Lemma parse_range_suffix_witness :
  parse_range_header digits_only_int "bytes=-500" 1000
  = Some (500, 999)%Z.
Proof.
  apply (parse_range_suffix digits_only_int "500" 1000 500).
  - reflexivity.
  - lia.
  - lia.
Defined.

Lemma serve_range_body_witness :
  status (serve_file_with_range digits_only_int sample_plaintext
            "plain.bin" (Some "bytes=1-3"%string)) = 206.
Proof.
  destruct (serve_range_body digits_only_int sample_plaintext "plain.bin"
              "bytes=1-3")
    as [(Hnone & _)|(first & last & _ & Hst & _)].
  - discriminate.
  - discriminate Hnone.
  - exact Hst.
Defined.

(** Two file systems that differ outside the data directory only. *)
Definition inside_only (path : string) : option bytes :=
  if (path =? "/data/model.tbenc")%string then Some sample_plaintext
  else None.

Definition with_outside (path : string) : option bytes :=
  if (path =? "/etc/passwd")%string then Some [x00] else inside_only path.

Lemma get_artifact_confined_witness :
  get_artifact digits_only_int "/data" inside_only "GET" None
    "../etc/passwd"
  = get_artifact digits_only_int "/data" with_outside "GET" None
      "../etc/passwd".
Proof.
  refine (proj1 (get_artifact_confined digits_only_int "/data" inside_only
                   with_outside "GET" None "../etc/passwd" _)).
  intros name _ _. unfold with_outside.
  change ("/data" ++ separator "/data" ++ name)%string
    with (String "/" (String "d" ("ata/" ++ name)))%string.
  reflexivity.
Defined.

End ServiceWitnesses.
